(** * hooktest: the report renderer of [hooktest/cli.py]

    A shallow embedding of [CustomLogger] (verbosity gate, entry filter,
    status colouring, level-gated append, header and info lines) and of the
    Python and [click] primitives it is written with, followed by the
    properties of the renderer.

    Conventions.  A Python [str] is a list of code points, a Python [int] is
    a [Z], [None] is [None] of an [option].  A call that can raise returns a
    [result]; the exception is carried by [Raise].  In-place mutation
    ([list.append], [click.echo]) is state passing: the function returns the
    new list or the new output stream. *)

From Stdlib Require Import Ascii String.
From Stdlib Require Import List ZArith NArith Bool Lia.
Import ListNotations.
Open Scope Z_scope.

(** ** Python strings *)

Definition char := N.
Definition pystr := list char.

(** An ASCII literal of the source as a [pystr]. *)
Definition lit (s : string) : pystr := map N_of_ascii (list_ascii_of_string s).


(** [a == b] on strings. *)
Fixpoint str_eqb (a b : pystr) : bool :=
  match a, b with
  | [], [] => true
  | x :: a', y :: b' => N.eqb x y && str_eqb a' b'
  | _, _ => false
  end.

(** [s.startswith(p)] *)
Fixpoint startswith (p s : pystr) : bool :=
  match p, s with
  | [], _ => true
  | _ :: _, [] => false
  | x :: p', y :: s' => N.eqb x y && startswith p' s'
  end.

(** [sep in s] *)
Fixpoint contains (sep s : pystr) : bool :=
  startswith sep s ||
  match s with
  | [] => false
  | _ :: s' => contains sep s'
  end.

(** [n * s] for an [int] n: the empty string when [n <= 0]. *)
Definition str_repeat (n : Z) (s : pystr) : pystr :=
  concat (repeat s (Z.to_nat n)).

(** ** Exceptions *)

Inductive exn : Type :=
| KeyError (key : pystr)
| AttributeError
| ValueError.

Inductive result (A : Type) : Type :=
| Ok (a : A)
| Raise (e : exn).
Arguments Ok {A} a.
Arguments Raise {A} e.

Definition bind {A B : Type} (c : result A) (k : A -> result B) : result B :=
  match c with
  | Ok a => k a
  | Raise e => Raise e
  end.

Notation "x <- c ;; k" := (bind c (fun x => k))
  (at level 61, c at next level, right associativity).

(** ** [str.split] and [str.join] *)

(** Puts one more character in front of the segment being read. *)
Definition push (c : char) (parts : list pystr) : list pystr :=
  match parts with
  | [] => [[c]]
  | p :: ps => (c :: p) :: ps
  end.

(** The segments of [s] between the occurrences of a non-empty [sep], read
    from the left; occurrences do not overlap.  [skip] counts the characters
    of an occurrence of [sep] that are still to be passed over. *)
Fixpoint split_from (skip : nat) (sep s : pystr) : list pystr :=
  match s with
  | [] => [[]]
  | c :: s' =>
      match skip with
      | S k => split_from k sep s'
      | O =>
          if startswith sep s
          then [] :: split_from (length sep - 1) sep s'
          else push c (split_from 0 sep s')
      end
  end.

(** [s.split(sep)]: an empty separator is a [ValueError]. *)
Definition str_split (s sep : pystr) : result (list pystr) :=
  match sep with
  | [] => Raise ValueError
  | _ :: _ => Ok (split_from 0 sep s)
  end.

(** [sep.join(parts)] *)
Fixpoint str_join (sep : pystr) (parts : list pystr) : pystr :=
  match parts with
  | [] => []
  | p :: ps =>
      match ps with
      | [] => p
      | _ :: _ => p ++ sep ++ str_join sep ps
      end
  end.

(** ** [click.style] and [click.unstyle] *)

Definition ESC : char := 27%N.

(** The escape sequence [ESC [ params m]. *)
Definition sgr (params : pystr) : pystr :=
  ESC :: 91%N :: params ++ [109%N].

(** The foreground colours the renderer asks for. *)
Inductive color : Type := red | green | cyan | reset.

(** [click]'s colour table: red 31, green 32, cyan 36, reset 39. *)
Definition color_code (c : color) : pystr :=
  match c with
  | red => lit "31"
  | green => lit "32"
  | cyan => lit "36"
  | reset => lit "39"
  end.

(** [click.style(text, fg=fg, bold=bold)]: the colour code when [fg] is
    given, the bold code when [bold] is given, the text, and the code that
    resets all attributes. *)
Definition click_style (text : pystr) (fg : option color) (bold : option bool)
  : pystr :=
  match fg with Some c => sgr (color_code c) | None => [] end ++
  match bold with
  | Some true => sgr (lit "1")
  | Some false => sgr (lit "22")
  | None => []
  end ++
  text ++ sgr (lit "0").

(** [[;?0-9]] *)
Definition is_param (c : char) : bool :=
  N.eqb c 59 || N.eqb c 63 || (N.leb 48 c && N.leb c 57).

(** [[a-zA-Z]] *)
Definition is_letter (c : char) : bool :=
  (N.leb 97 c && N.leb c 122) || (N.leb 65 c && N.leb c 90).

(** Length of a match of [[;?0-9]*[a-zA-Z]] at the head of [s], if any. *)
Fixpoint params_len (s : pystr) : option nat :=
  match s with
  | [] => None
  | c :: s' =>
      if is_param c then option_map S (params_len s')
      else if is_letter c then Some 1%nat
      else None
  end.

(** Length of a match of [click]'s pattern [\033\[[;?0-9]*[a-zA-Z]] at the
    head of [s], if any. *)
Definition ansi_match (s : pystr) : option nat :=
  match s with
  | c :: s' =>
      if N.eqb c ESC then
        match s' with
        | d :: r =>
            if N.eqb d 91
            then option_map (fun n => S (S n)) (params_len r)
            else None
        | [] => None
        end
      else None
  | [] => None
  end.

(** Removes every match of the pattern, from the left; [skip] counts the
    characters of the current match still to be dropped. *)
Fixpoint strip_from (skip : nat) (s : pystr) : pystr :=
  match s with
  | [] => []
  | c :: s' =>
      match skip with
      | S k => strip_from k s'
      | O =>
          match ansi_match s with
          | Some n => strip_from (n - 1) s'
          | None => c :: strip_from 0 s'
          end
      end
  end.

(** [click.unstyle(s)]: the text without its colour codes. *)
Definition strip_ansi (s : pystr) : pystr := strip_from 0 s.

(** ** [to_small_caps] *)

Definition small_caps_map : list (char * char) :=
  combine (lit "abcdefghijklmnopqrstuvwxyz")
    [7424; 665; 7428; 7429; 7431; 42800; 610; 668; 618; 7434; 7435; 671; 7437;
     628; 7439; 7448; 491; 640; 115; 7451; 7452; 7456; 7457; 120; 655;
     7458]%N.

(** [str.translate] on one character: the table's image, else the character. *)
Fixpoint translate1 (tbl : list (char * char)) (c : char) : char :=
  match tbl with
  | [] => c
  | (k, v) :: tbl' => if N.eqb k c then v else translate1 tbl' c
  end.

Definition to_small_caps (text : pystr) : pystr :=
  map (translate1 small_caps_map) text.

(** ** Dictionaries with string keys *)

Definition dict := list (pystr * Z).

(** [d[k]]: the value of the first binding of [k], else [KeyError]. *)
Fixpoint dict_get (d : dict) (k : pystr) : result Z :=
  match d with
  | [] => Raise (KeyError k)
  | (k', v) :: d' => if str_eqb k' k then Ok v else dict_get d' k
  end.

(** ** The data of the renderer *)

(** Modelled from the spec: the [Log] class of [hooktest.tester], which the
    renderer imports and whose source is not at hand.  A log entry has a
    name, a boolean status and an optional details text. *)
Record Log : Type := mkLog {
  name : pystr;
  status : bool;
  details : option pystr
}.

(** The attributes of a [CustomLogger] instance. *)
Record CustomLogger : Type := mkLogger {
  _eq : dict;
  level : Z;
  width : Z;
  _table_indent : pystr
}.

Definition minimal : pystr := lit "minimal".
Definition verbose : pystr := lit "verbose".
Definition detailed : pystr := lit "details".

(** The success and failure glyphs, U+2714 and U+2717. *)
Definition check_glyph : pystr := [10004%N].
Definition cross_glyph : pystr := [10007%N].

(** The table of thresholds that [__init__] stores in [self._eq]. *)
Definition thresholds : dict := [(minimal, 10); (detailed, 5); (verbose, 0)].

(** The value of [self._table_indent]: a newline and four spaces. *)
Definition indent_marker : pystr := 10%N :: lit "    ".

(** [CustomLogger.__init__] *)
Definition __init__ (lvl : pystr) : result CustomLogger :=
  l <- dict_get thresholds lvl ;;
  Ok {| _eq := thresholds; level := l; width := 88;
        _table_indent := indent_marker |}.

(** ** The operations of [CustomLogger] *)

Section Renderer.

(** [textwrap.wrap(text, width=w)] of Python's standard library, on a string
    and a positive width: the list of wrapped lines. *)
Variable textwrap_wrap : pystr -> Z -> list pystr.

(** [str.title] of Python. *)
Variable str_title : pystr -> pystr.

(** The call [textwrap.wrap(text, width=w)] as the renderer makes it: [None]
    has no [expandtabs] ([AttributeError]), and a width that is not positive
    is refused once the text has been split ([ValueError]). *)
Definition py_wrap (text : option pystr) (w : Z) : result (list pystr) :=
  match text with
  | None => Raise AttributeError
  | Some t => if w <=? 0 then Raise ValueError else Ok (textwrap_wrap t w)
  end.

(** [x or default] on an optional string: [None] and the empty string are
    false. *)
Definition str_or (x : option pystr) (default : pystr) : pystr :=
  match x with
  | Some s =>
      match s with
      | [] => default
      | _ :: _ => s
      end
  | None => default
  end.

(** The output stream: the messages handed to [click.echo], oldest first. *)
Definition stream := list pystr.

(** [CustomLogger._print] *)
Definition _print (self : CustomLogger) (out : stream) (s : pystr)
    (lvl : pystr) (indent : Z) (fg : option color) (bold : option bool)
  : result stream :=
  l <- dict_get (_eq self) lvl ;;
  if l >=? level self
  then Ok (out ++ [click_style (str_repeat indent [9%N] ++ s) fg bold])
  else Ok out.

(** [CustomLogger.header] *)
Definition header (self : CustomLogger) (out : stream) (s : pystr)
    (lvl : pystr) : result stream :=
  _print self out
    (10%N :: lit "==== " ++ to_small_caps (str_title s) ++ lit " ====")
    lvl 0 None (Some true).

(** [CustomLogger.info] *)
Definition info (self : CustomLogger) (out : stream) (s : pystr)
    (lvl : pystr) (indent : Z) : result stream :=
  _print self out (lit "INFO: " ++ s) lvl indent (Some cyan) None.

(** [CustomLogger.green_red] *)
Definition green_red (self : CustomLogger) (s : pystr) (st : bool)
  : result pystr :=
  if negb st then
    if contains (_table_indent self) s then
      parts <- str_split s (_table_indent self) ;;
      Ok (str_join
            (click_style (lit " ") (Some reset) None ++ _table_indent self)
            (map (fun substring => click_style substring (Some red) None)
                 parts))
    else Ok (click_style s (Some red) None)
  else if st && (level self <=? 5) then Ok (click_style s (Some green) None)
  else Ok s.

(** [CustomLogger.checkmark] *)
Definition checkmark (self : CustomLogger) (st : bool) : result pystr :=
  if st then green_red self check_glyph st
  else green_red self cross_glyph st.

(** The text of one selected entry: the expression of the comprehension in
    [filter_logs]. *)
Definition entry_text (self : CustomLogger) (log : Log) : result pystr :=
  if status log then
    r <- green_red self (str_or (details log) check_glyph) (status log) ;;
    Ok (name log ++ lit ": " ++ r)
  else
    lines <- py_wrap (details log) (width self) ;;
    r <- green_red self (str_join (_table_indent self) lines) (status log) ;;
    Ok (name log ++ lit ": " ++ r).

(** [CustomLogger.filter_logs] *)
Fixpoint filter_logs (self : CustomLogger) (content : list Log)
  : result (list pystr) :=
  match content with
  | [] => Ok []
  | log :: rest =>
      if Bool.eqb (status log) false || (level self <=? 0) then
        r <- entry_text self log ;;
        rs <- filter_logs self rest ;;
        Ok (r :: rs)
      else filter_logs self rest
  end.

(** [CustomLogger.filter_append]: the haystack after the call. *)
Definition filter_append {A : Type} (self : CustomLogger) (haystack : list A)
    (hay : A) (lvl : pystr) : result (list A) :=
  l <- dict_get (_eq self) lvl ;;
  if l >=? level self then Ok (haystack ++ [hay]) else Ok haystack.

End Renderer.

(** ** Reference instances of the library functions

    The renderer is verified for every [textwrap.wrap] and [str.title]; the
    two functions below are what Python computes on the simplest inputs and
    serve to run the renderer on concrete entries. *)

(** Cuts [s] into slices of [w] characters. *)
Fixpoint slices (fuel w : nat) (s : pystr) : list pystr :=
  match fuel with
  | O => []
  | S fuel' =>
      match s with
      | [] => []
      | _ :: _ => firstn w s :: slices fuel' w (skipn w s)
      end
  end.

(** [textwrap.wrap] on a text that is one unbreakable word (no white space,
    no hyphen): the word is cut every [w] characters. *)
Definition wrap_word (t : pystr) (w : Z) : list pystr :=
  slices (length t) (Z.to_nat w) t.

Definition ascii_lower (c : char) : bool := N.leb 97 c && N.leb c 122.
Definition ascii_upper (c : char) : bool := N.leb 65 c && N.leb c 90.

(** [str.title] on ASCII text: a letter that follows a letter is lowered, any
    other letter is raised. *)
Fixpoint title_from (prev_cased : bool) (s : pystr) : pystr :=
  match s with
  | [] => []
  | c :: s' =>
      if ascii_lower c then
        (if prev_cased then c else (c - 32)%N) :: title_from true s'
      else if ascii_upper c then
        (if prev_cased then (c + 32)%N else c) :: title_from true s'
      else c :: title_from false s'
  end.

Definition title_ascii (s : pystr) : pystr := title_from false s.

(** ** Notions used in the statements *)

(** The logger that [__init__] builds for a threshold. *)
Definition logger_at (l : Z) : CustomLogger :=
  {| _eq := thresholds; level := l; width := 88;
     _table_indent := indent_marker |}.

(** [s] with [x] put in front of every occurrence of [sep]. *)
Fixpoint insert_before (x sep s : pystr) : pystr :=
  match s with
  | [] => []
  | c :: s' =>
      (if startswith sep s then x else []) ++ c :: insert_before x sep s'
  end.

(** A character that can be no part of a colour code but its first. *)
Definition breaker (b : char) : bool :=
  negb (is_param b || is_letter b || N.eqb b 91).

(** A text without escape character has no colour code. *)
Definition plain (s : pystr) : Prop := forall c, In c s -> c <> ESC.

(** The joiner of [green_red]: an uncoloured space and the indent. *)
Definition space_joiner : pystr :=
  click_style (lit " ") (Some reset) None ++ indent_marker.

(** The segments of a text coloured once: every coloured segment but the
    last is followed by the uncoloured space of the joiner. *)
Fixpoint coloured_segments (ps : list pystr) : list pystr :=
  match ps with
  | [] => []
  | p :: ps' =>
      match ps' with
      | [] => [click_style p (Some red) None]
      | _ :: _ =>
          (click_style p (Some red) None ++
           click_style (lit " ") (Some reset) None) ::
          coloured_segments ps'
      end
  end.

(** The text with one space in front of every indent. *)
Definition space_before_markers (s : pystr) : pystr :=
  insert_before (lit " ") indent_marker s.

(** The passing entry of the end-to-end scenario. *)
Definition entry_pass : Log := mkLog (lit "well-formed") true None.

(** The failing entry of the end-to-end scenario. *)
Definition entry_fail : Log :=
  mkLog (lit "schema") false (Some (lit "missing element X")).


(** A details text of 200 characters. *)
Definition long_details : pystr := repeat 97%N 200.

(** A failing entry that carries it. *)
Definition entry_long_fail : Log :=
  mkLog (lit "schema") false (Some long_details).










(** ** The report tables of [cli] *)

Module Result.

(** Modelled from the spec: the result object that [hooktest.tester] keeps
    for each file, whose source is not at hand.  It has an overall status
    and the ordered entries of its checks. *)
Record t : Type := mk {
  status : bool;
  statuses : list Log
}.

End Result.

Module Metadata.

(** Modelled from the spec: a metadata entry of a catalog object, with a
    term, an optional language and a value. *)
Record t : Type := mk {
  term : pystr;
  language : option pystr;
  value : pystr
}.

End Metadata.

Module Collection.

(** Modelled from the spec: a catalog object, with a title, an optional
    description and its descriptive and extension metadata. *)
Record t : Type := mk {
  title : pystr;
  description : option pystr;
  dublin_core : list Metadata.t;
  extensions : list Metadata.t
}.

End Collection.

(** A table handed to [tabulate]: rows of cells. *)
Definition table := list (list pystr).

Section Cli.

Variable textwrap_wrap : pystr -> Z -> list pystr.

(** The row that [cli] builds for one file: its label, the check mark of
    the overall status and the selected entries, one per line. *)
Definition file_row (printer : CustomLogger) (label : pystr)
    (res : Result.t) : result (list pystr) :=
  mark <- checkmark printer (Result.status res) ;;
  logs <- filter_logs textwrap_wrap printer (Result.statuses res) ;;
  Ok [label; mark; str_join [10%N] logs].

(** The loop of [cli] over [tester.results.items()], in the order of the
    dictionary: every row goes through [filter_append] at level
    ["minimal"]. *)
Fixpoint catalog_rows (printer : CustomLogger) (tbl : table)
    (results : list (pystr * Result.t)) : result table :=
  match results with
  | [] => Ok tbl
  | (file, res) :: rest =>
      hay <- file_row printer file res ;;
      tbl' <- filter_append printer tbl hay minimal ;;
      catalog_rows printer tbl' rest
  end.

(** The table of the section "Report: Catalog files". *)
Definition catalog_table (printer : CustomLogger)
    (results : list (pystr * Result.t)) : result table :=
  catalog_rows printer [[lit "File"; lit "Status"; lit "Tests"]] results.

End Cli.

(** The rows that [cli] appends for one catalog object. *)
Definition collection_rows (identifier : pystr) (collection : Collection.t)
  : table :=
  [[identifier; lit "title"; []; Collection.title collection]] ++
  match Collection.description collection with
  | Some d =>
      match d with
      | [] => []
      | _ :: _ => [[identifier; lit "description"; []; d]]
      end
  | None => []
  end ++
  map (fun dc =>
         [identifier; lit "dc:" ++ Metadata.term dc;
          str_or (Metadata.language dc) []; Metadata.value dc])
      (Collection.dublin_core collection) ++
  map (fun ex =>
         [identifier; Metadata.term ex;
          str_or (Metadata.language ex) []; Metadata.value ex])
      (Collection.extensions collection).

(** The table of the section "Report: Metadata": the loop of [cli] over
    [tester.catalog.objects.items()]. *)
Definition metadata_table (objects : list (pystr * Collection.t)) : table :=
  [[lit "Identifier"; lit "Key"; lit "Language"; lit "Metadata"]] ++
  concat (map (fun io => collection_rows (fst io) (snd io)) objects).

(** An entry that [filter_logs] can render: a failing entry has details. *)
Definition renderable (log : Log) : Prop :=
  status log = false -> details log <> None.

(** The guard of the comprehension in [filter_logs]. *)
Definition selected (self : CustomLogger) (log : Log) : bool :=
  Bool.eqb (status log) false || (level self <=? 0).

(** Two results: a file whose checks pass and a file with a failure. *)
Definition sample_results : list (pystr * Result.t) :=
  [(lit "a.xml", Result.mk true [entry_pass]);
   (lit "b.xml", Result.mk false [entry_pass; entry_fail])].

(** The second argument of [str.maketrans] in [to_small_caps]: the small
    capital of each letter, in the order of the alphabet. *)
Definition small_caps_letters : list char := map snd small_caps_map.

(** The number of rows that [cli] appends for one catalog object. *)
Definition collection_row_count (collection : Collection.t) : nat :=
  1 +
  match Collection.description collection with
  | Some (_ :: _) => 1
  | _ => 0
  end +
  length (Collection.dublin_core collection) +
  length (Collection.extensions collection).

(** * Properties *)

(** ** The constructor *)

Lemma str_eqb_eq (a b : pystr) : str_eqb a b = true <-> a = b.
Proof.
  revert b; induction a as [|x a IH]; intros [|y b]; simpl;
    try (split; [discriminate | congruence]); try tauto.
  rewrite andb_true_iff, N.eqb_eq, IH.
  split; [intros [-> ->]; reflexivity | intros H; injection H; auto].
Qed.

Lemma str_eqb_refl (a : pystr) : str_eqb a a = true.
Proof. apply str_eqb_eq; reflexivity. Qed.

Lemma str_eqb_neq (a b : pystr) : a <> b -> str_eqb a b = false.
Proof.
  intros H; destruct (str_eqb a b) eqn:E; [|reflexivity].
  apply str_eqb_eq in E; contradiction.
Qed.

(** The three names of the table, and only they, have a threshold. *)
Lemma thresholds_cases (k : pystr) (v : Z) :
  dict_get thresholds k = Ok v <->
  (k = minimal /\ v = 10) \/ (k = detailed /\ v = 5) \/ (k = verbose /\ v = 0).
Proof.
  unfold thresholds; cbn [dict_get].
  destruct (str_eqb minimal k) eqn:E1.
  { apply str_eqb_eq in E1; subst k; split.
    - intros H; injection H as <-; auto.
    - intros [[_ ->]|[[H _]|[H _]]]; [reflexivity|discriminate H..]. }
  destruct (str_eqb detailed k) eqn:E2.
  { apply str_eqb_eq in E2; subst k; split.
    - intros H; injection H as <-; auto.
    - intros [[H _]|[[_ ->]|[H _]]]; [discriminate H|reflexivity|discriminate H]. }
  destruct (str_eqb verbose k) eqn:E3.
  { apply str_eqb_eq in E3; subst k; split.
    - intros H; injection H as <-; auto.
    - intros [[H _]|[[H _]|[_ ->]]]; [discriminate H..|reflexivity]. }
  split; [discriminate|].
  intros [[-> _]|[[-> _]|[-> _]]].
  - rewrite str_eqb_refl in E1; discriminate.
  - rewrite str_eqb_refl in E2; discriminate.
  - rewrite str_eqb_refl in E3; discriminate.
Qed.

Lemma thresholds_unknown (k : pystr) :
  k <> minimal -> k <> detailed -> k <> verbose ->
  dict_get thresholds k = Raise (KeyError k).
Proof.
  intros H1 H2 H3; unfold thresholds; cbn [dict_get].
  rewrite !str_eqb_neq by congruence; reflexivity.
Qed.

Lemma init_cases (nm : pystr) (self : CustomLogger) :
  __init__ nm = Ok self <->
  (nm = minimal /\ self = logger_at 10) \/
  (nm = detailed /\ self = logger_at 5) \/
  (nm = verbose /\ self = logger_at 0).
Proof.
  unfold __init__; split.
  - destruct (dict_get thresholds nm) as [v|e] eqn:E; simpl; [|discriminate].
    intros H; injection H as <-.
    apply thresholds_cases in E.
    destruct E as [[-> ->]|[[-> ->]|[-> ->]]]; auto.
  - intros [[-> ->]|[[-> ->]|[-> ->]]]; reflexivity.
Qed.

Lemma init_shape (nm : pystr) (self : CustomLogger) :
  __init__ nm = Ok self -> self = logger_at (level self).
Proof.
  intros H; apply init_cases in H.
  destruct H as [[_ ->]|[[_ ->]|[_ ->]]]; reflexivity.
Qed.

(** ** Prefixes, occurrences, splitting and joining *)

Lemma startswith_true (p s : pystr) :
  startswith p s = true -> s = p ++ skipn (length p) s.
Proof.
  revert s; induction p as [|x p IH]; intros s H; [reflexivity|].
  destruct s as [|y s]; [discriminate|].
  simpl in H; apply andb_true_iff in H; destruct H as [Hxy H].
  apply N.eqb_eq in Hxy; subst y; simpl; f_equal; auto.
Qed.

Lemma startswith_app (p r : pystr) : startswith p (p ++ r) = true.
Proof.
  induction p as [|x p IH]; [reflexivity|].
  simpl; rewrite N.eqb_refl; exact IH.
Qed.

(** A character that does not occur in [p] ends every match of [p]. *)
Lemma startswith_app_break (p s : pystr) (b : char) (r : pystr) :
  ~ In b p -> startswith p (s ++ b :: r) = startswith p s.
Proof.
  revert s; induction p as [|x p IH]; intros s Hb; [reflexivity|].
  destruct s as [|y s]; simpl.
  - destruct (N.eqb_spec x b) as [->|_]; [|reflexivity].
    exfalso; apply Hb; left; reflexivity.
  - rewrite IH; [reflexivity|]. intros H; apply Hb; right; exact H.
Qed.

Lemma contains_cons (sep : pystr) (c : char) (s : pystr) :
  contains sep (c :: s) = startswith sep (c :: s) || contains sep s.
Proof. reflexivity. Qed.

Lemma contains_app_break (sep s : pystr) (b : char) (r : pystr) :
  sep <> [] -> ~ In b sep ->
  contains sep (s ++ b :: r) = contains sep s || contains sep (b :: r).
Proof.
  intros Hne Hb; induction s as [|c s IH].
  - destruct sep; [exfalso; apply Hne; reflexivity | reflexivity].
  - change ((c :: s) ++ b :: r) with (c :: (s ++ b :: r)).
    rewrite !contains_cons, IH.
    change (c :: s ++ b :: r) with ((c :: s) ++ b :: r).
    rewrite startswith_app_break by exact Hb.
    rewrite orb_assoc; reflexivity.
Qed.

Lemma split_from_nonempty (k : nat) (sep s : pystr) : split_from k sep s <> [].
Proof.
  revert k; induction s as [|c s IH]; intros k; simpl; [discriminate|].
  destruct k; [|apply IH].
  destruct (startswith sep (c :: s)); [discriminate|].
  specialize (IH 0%nat); destruct (split_from 0 sep s); [contradiction|].
  discriminate.
Qed.

Lemma split_from_skip (a : pystr) (k : nat) (sep r : pystr) :
  split_from (length a + k) sep (a ++ r) = split_from k sep r.
Proof. induction a as [|c a IH]; [reflexivity | exact IH]. Qed.

Lemma str_join_cons (sep p : pystr) (l : list pystr) :
  l <> [] -> str_join sep (p :: l) = p ++ sep ++ str_join sep l.
Proof. destruct l; [contradiction | reflexivity]. Qed.

Lemma str_join_push (sep : pystr) (c : char) (l : list pystr) :
  l <> [] -> str_join sep (push c l) = c :: str_join sep l.
Proof.
  destruct l as [|p [|q l]]; [contradiction | reflexivity | reflexivity].
Qed.

Lemma insert_before_nil (sep s : pystr) : insert_before [] sep s = s.
Proof.
  induction s as [|c s IH]; [reflexivity|].
  simpl; rewrite IH; destruct (startswith sep (c :: s)); reflexivity.
Qed.

Lemma insert_before_length (x sep s : pystr) :
  (length s <= length (insert_before x sep s))%nat.
Proof.
  induction s as [|c s IH]; simpl; [lia|].
  rewrite length_app; simpl; lia.
Qed.

Lemma insert_before_longer (x sep s : pystr) :
  x <> [] -> sep <> [] -> contains sep s = true ->
  (length s < length (insert_before x sep s))%nat.
Proof.
  intros Hx Hsep; induction s as [|c s IH]; intros H.
  - destruct sep; [contradiction | discriminate H].
  - rewrite contains_cons in H.
    cbn [insert_before]; rewrite length_app; cbn [length].
    destruct (startswith sep (c :: s)).
    + pose proof (insert_before_length x sep s).
      destruct x; [contradiction | simpl; lia].
    + simpl in H; apply IH in H; simpl; lia.
Qed.

Section Separator.

(** A separator [h :: t] whose first character does not occur again in it, so
    that two occurrences cannot overlap. *)
Variable h : char.
Variable t : pystr.
Hypothesis no_border : ~ In h t.

Let sep : pystr := h :: t.

Lemma startswith_before_sep (y r : pystr) :
  y <> [] -> startswith sep (y ++ sep ++ r) = startswith sep y.
Proof.
  intros Hy; destruct y as [|c y]; [contradiction|].
  unfold sep; simpl.
  rewrite (startswith_app_break t y h (t ++ r) no_border); reflexivity.
Qed.

(** A text without separator, followed by a separator, is one segment. *)
Lemma split_app_sep (x r : pystr) :
  contains sep x = false ->
  split_from 0 sep (x ++ sep ++ r) = x :: split_from 0 sep r.
Proof.
  induction x as [|c x IH]; intros Hx.
  - change ([] ++ sep ++ r) with (h :: (t ++ r)).
    cbn [split_from].
    change (h :: t ++ r) with (sep ++ r); rewrite startswith_app.
    f_equal.
    replace (length sep - 1)%nat with (length t) by (unfold sep; simpl; lia).
    rewrite <- (split_from_skip t 0 sep r), Nat.add_0_r; reflexivity.
  - rewrite contains_cons in Hx; apply orb_false_iff in Hx.
    destruct Hx as [Hs Hc].
    change ((c :: x) ++ sep ++ r) with (c :: (x ++ sep ++ r)).
    cbn [split_from].
    change (c :: x ++ sep ++ r) with ((c :: x) ++ sep ++ r).
    rewrite startswith_before_sep by discriminate.
    rewrite Hs, (IH Hc); reflexivity.
Qed.

Lemma split_no_sep (x : pystr) :
  contains sep x = false -> split_from 0 sep x = [x].
Proof.
  induction x as [|c x IH]; intros Hx; [reflexivity|].
  rewrite contains_cons in Hx; apply orb_false_iff in Hx.
  destruct Hx as [Hs Hc].
  cbn [split_from]; rewrite Hs, (IH Hc); reflexivity.
Qed.

Lemma contains_sep_app (a r : pystr) : contains sep (a ++ sep ++ r) = true.
Proof.
  induction a as [|c a IH].
  - change ([] ++ sep ++ r) with (h :: (t ++ r)).
    rewrite contains_cons.
    change (h :: t ++ r) with (sep ++ r); rewrite startswith_app; reflexivity.
  - change ((c :: a) ++ sep ++ r) with (c :: (a ++ sep ++ r)).
    rewrite contains_cons, IH; apply orb_true_r.
Qed.

(** Joining the segments with [x ++ sep] puts [x] in front of every
    occurrence of the separator; [firstn k s] is the part of the current
    occurrence that [split_from] still has to pass over. *)
Lemma join_split_from (x : pystr) (k : nat) (s : pystr) :
  (k <= length s)%nat ->
  Forall (fun c => c <> h) (firstn k s) ->
  firstn k s ++ str_join (x ++ sep) (split_from k sep s) =
  insert_before x sep s.
Proof.
  revert k; induction s as [|c s IH]; intros k Hk Hf.
  - destruct k; [reflexivity | simpl in Hk; lia].
  - destruct k as [|k].
    + cbn [firstn app split_from insert_before].
      destruct (startswith sep (c :: s)) eqn:Hs.
      * pose proof (startswith_true _ _ Hs) as E.
        unfold sep in E; simpl in E; injection E as Ec Es.
        rewrite str_join_cons by apply split_from_nonempty.
        replace (length sep - 1)%nat with (length t)
          by (unfold sep; simpl; lia).
        rewrite <- (IH (length t)).
        -- rewrite Es at 2. rewrite firstn_app, Nat.sub_diag, firstn_all.
           simpl; rewrite app_nil_r, <- !app_assoc; subst c; reflexivity.
        -- rewrite Es, length_app; lia.
        -- rewrite Es, firstn_app, Nat.sub_diag, firstn_all; simpl.
           rewrite app_nil_r; apply Forall_forall.
           intros y Hy ->; exact (no_border Hy).
      * rewrite str_join_push by apply split_from_nonempty.
        rewrite <- (IH 0%nat); [reflexivity | lia | constructor].
    + cbn [firstn split_from insert_before].
      inversion Hf as [|? ? Hc Hf']; subst.
      assert (Hs : startswith sep (c :: s) = false).
      { unfold sep; simpl. destruct (N.eqb_spec h c); [congruence|reflexivity]. }
      rewrite Hs; simpl.
      f_equal; apply IH; [simpl in Hk; lia | exact Hf'].
Qed.

(** Splitting on a separator and joining on it gives the text back. *)
Lemma join_split (s : pystr) :
  str_join sep (split_from 0 sep s) = s.
Proof.
  pose proof (join_split_from [] 0 s) as H.
  rewrite insert_before_nil in H; apply H; [lia | constructor].
Qed.

Lemma startswith_app_true (p a z : pystr) :
  startswith p a = true -> startswith p (a ++ z) = true.
Proof.
  revert a; induction p as [|x p IH]; intros a H; [reflexivity|].
  destruct a as [|y a]; [discriminate|].
  simpl in *; apply andb_true_iff in H; destruct H as [-> H].
  simpl; auto.
Qed.

(** The first segment is a prefix of the text. *)
Lemma split_head_prefix (s p : pystr) (ps : list pystr) :
  split_from 0 sep s = p :: ps -> exists z, s = p ++ z.
Proof.
  intros H; pose proof (join_split s) as J; rewrite H in J.
  destruct ps as [|q ps].
  - exists []; rewrite app_nil_r; symmetry; exact J.
  - rewrite str_join_cons in J by discriminate; eauto.
Qed.

(** No segment holds an occurrence of the separator. *)
Lemma split_segments_clean (k : nat) (s : pystr) :
  Forall (fun p => contains sep p = false) (split_from k sep s).
Proof.
  revert k; induction s as [|c s IH]; intros k.
  - repeat constructor.
  - destruct k as [|k]; cbn [split_from]; [|apply IH].
    destruct (startswith sep (c :: s)) eqn:Hs.
    + constructor; [reflexivity | apply IH].
    + specialize (IH 0%nat).
      destruct (split_from 0 sep s) as [|p ps] eqn:E.
      { exfalso; revert E; apply split_from_nonempty. }
      inversion IH as [|? ? Hp Hps]; subst.
      constructor; [|exact Hps].
      rewrite contains_cons, Hp, orb_false_r.
      destruct (startswith sep (c :: p)) eqn:Hcp; [|reflexivity].
      destruct (split_head_prefix s p ps E) as [z ->].
      change (c :: p ++ z) with ((c :: p) ++ z) in Hs.
      rewrite (startswith_app_true _ _ z Hcp) in Hs; discriminate.
Qed.




End Separator.

(** ** Colour codes and their removal *)

Lemma breaker_inv (b : char) :
  breaker b = true ->
  is_param b = false /\ is_letter b = false /\ N.eqb b 91 = false.
Proof.
  unfold breaker; intros H; apply negb_true_iff in H.
  apply orb_false_iff in H; destruct H as [H H3].
  apply orb_false_iff in H; destruct H as [H1 H2]; auto.
Qed.

Lemma params_len_break (q : pystr) (b : char) (r : pystr) :
  breaker b = true -> params_len (q ++ b :: r) = params_len q.
Proof.
  intros Hb; apply breaker_inv in Hb; destruct Hb as (Hp & Hl & _).
  induction q as [|c q IH]; simpl.
  - rewrite Hp, Hl; reflexivity.
  - rewrite IH; reflexivity.
Qed.

Lemma params_len_bound (q : pystr) (n : nat) :
  params_len q = Some n -> (1 <= n <= length q)%nat.
Proof.
  revert n; induction q as [|c q IH]; intros n; simpl; [discriminate|].
  destruct (is_param c).
  - destruct (params_len q) as [m|]; [|discriminate].
    intros H; injection H as <-; specialize (IH m eq_refl); lia.
  - destruct (is_letter c); [|discriminate].
    intros H; injection H as <-; lia.
Qed.

Lemma ansi_match_bound (s : pystr) (n : nat) :
  ansi_match s = Some n -> (1 <= n <= length s)%nat.
Proof.
  destruct s as [|c [|d r]]; simpl; try discriminate.
  { destruct (N.eqb c ESC); discriminate. }
  destruct (N.eqb c ESC); [|discriminate].
  destruct (N.eqb d 91); [|discriminate].
  destruct (params_len r) as [m|] eqn:E; [|discriminate].
  intros H; injection H as <-; apply params_len_bound in E; lia.
Qed.

Lemma ansi_match_break (c : char) (q : pystr) (b : char) (r : pystr) :
  breaker b = true ->
  ansi_match ((c :: q) ++ b :: r) = ansi_match (c :: q).
Proof.
  intros Hb; destruct q as [|d q]; simpl.
  - apply breaker_inv in Hb; destruct Hb as (_ & _ & ->).
    destruct (N.eqb c ESC); reflexivity.
  - rewrite params_len_break by exact Hb; reflexivity.
Qed.

(** A match of the pattern never runs across a breaker, so the text before
    it and the text from it on are stripped independently. *)
Lemma strip_from_break (b : char) (r p : pystr) (k : nat) :
  breaker b = true -> (k <= length p)%nat ->
  strip_from k (p ++ b :: r) = strip_from k p ++ strip_from 0 (b :: r).
Proof.
  intros Hb; revert k; induction p as [|c p IH]; intros k Hk.
  - destruct k; [reflexivity | simpl in Hk; lia].
  - change ((c :: p) ++ b :: r) with (c :: (p ++ b :: r)).
    destruct k as [|k]; cbn [strip_from].
    + change (c :: p ++ b :: r) with ((c :: p) ++ b :: r).
      rewrite ansi_match_break by exact Hb.
      destruct (ansi_match (c :: p)) as [n|] eqn:E.
      * apply ansi_match_bound in E; simpl in E; apply IH; lia.
      * rewrite IH by lia; reflexivity.
    + apply IH; simpl in Hk; lia.
Qed.

Lemma strip_ansi_break (b : char) (r p : pystr) :
  breaker b = true ->
  strip_ansi (p ++ b :: r) = strip_ansi p ++ strip_ansi (b :: r).
Proof. intros Hb; apply strip_from_break; [exact Hb | lia]. Qed.

Lemma strip_ansi_plain (s : pystr) : plain s -> strip_ansi s = s.
Proof.
  unfold strip_ansi; induction s as [|c s IH]; intros Hs; [reflexivity|].
  cbn [strip_from].
  assert (Hc : N.eqb c ESC = false).
  { apply N.eqb_neq, Hs; left; reflexivity. }
  assert (Hm : ansi_match (c :: s) = None).
  { simpl; rewrite Hc; reflexivity. }
  rewrite Hm, IH; [reflexivity|].
  intros x Hx; apply Hs; right; exact Hx.
Qed.

(** [click.style] with a colour and nothing else. *)
Lemma click_style_fg (s : pystr) (c : color) :
  click_style s (Some c) None = sgr (color_code c) ++ s ++ sgr (lit "0").
Proof. reflexivity. Qed.

Lemma strip_ansi_sgr_color (c : color) (r : pystr) :
  strip_ansi (sgr (color_code c) ++ r) = strip_ansi r.
Proof. destruct c; reflexivity. Qed.

Lemma strip_ansi_sgr_reset (r : pystr) :
  strip_ansi (sgr (lit "0") ++ r) = strip_ansi r.
Proof. reflexivity. Qed.

(** Colouring is invisible once the codes are removed. *)
Lemma strip_ansi_style (s : pystr) (c : color) :
  strip_ansi (click_style s (Some c) None) = strip_ansi s.
Proof.
  rewrite click_style_fg, strip_ansi_sgr_color.
  change (sgr (lit "0")) with (ESC :: lit "[0m").
  rewrite strip_ansi_break by reflexivity.
  change (strip_ansi (ESC :: lit "[0m")) with (@nil char).
  apply app_nil_r.
Qed.

Lemma strip_ansi_joiner (r : pystr) :
  strip_ansi (space_joiner ++ r) = 32%N :: indent_marker ++ strip_ansi r.
Proof. reflexivity. Qed.

Lemma strip_ansi_style_app (s : pystr) (c : color) (r : pystr) :
  strip_ansi (click_style s (Some c) None ++ space_joiner ++ r) =
  strip_ansi s ++ 32%N :: indent_marker ++ strip_ansi r.
Proof.
  rewrite click_style_fg, <- !app_assoc, strip_ansi_sgr_color.
  change (sgr (lit "0") ++ space_joiner ++ r)
    with (ESC :: (lit "[0m" ++ space_joiner ++ r)).
  rewrite strip_ansi_break by reflexivity.
  f_equal.
Qed.

(** Segments coloured one by one and joined by the joiner read, without the
    codes, as the segments joined by a space and the indent. *)
Lemma strip_ansi_join_styled (c : color) (ps : list pystr) :
  strip_ansi
    (str_join space_joiner (map (fun p => click_style p (Some c) None) ps)) =
  str_join (32%N :: indent_marker) (map strip_ansi ps).
Proof.
  induction ps as [|p ps IH]; [reflexivity|].
  destruct ps as [|q ps].
  - simpl; apply strip_ansi_style.
  - change (map ?f (p :: ?l)) with (f p :: map f l).
    rewrite !str_join_cons by discriminate.
    rewrite strip_ansi_style_app, IH.
    change (map ?f (q :: ?l)) with (f q :: map f l).
    reflexivity.
Qed.

(** ** The colouring of loggers built by the constructor *)

Lemma indent_marker_no_border : ~ In 10%N (lit "    ").
Proof. simpl; intros [H|[H|[H|[H|[]]]]]; discriminate H. Qed.

Lemma click_style_length (s : pystr) (c : color) :
  length (click_style s (Some c) None) = (length s + 9)%nat.
Proof.
  rewrite click_style_fg, !length_app; destruct c; simpl; lia.
Qed.

Lemma click_style_neq (s : pystr) (c : color) :
  click_style s (Some c) None <> s.
Proof.
  intros H; apply (f_equal (@length char)) in H.
  rewrite click_style_length in H; lia.
Qed.

Lemma green_red_true (self : CustomLogger) (s : pystr) :
  green_red self s true =
  Ok (if level self <=? 5 then click_style s (Some green) None else s).
Proof. unfold green_red; simpl; destruct (level self <=? 5); reflexivity. Qed.

Lemma green_red_false_single (l : Z) (s : pystr) :
  contains indent_marker s = false ->
  green_red (logger_at l) s false = Ok (click_style s (Some red) None).
Proof. intros H; unfold green_red; simpl; rewrite H; reflexivity. Qed.

Lemma green_red_false_multi (l : Z) (s : pystr) :
  contains indent_marker s = true ->
  green_red (logger_at l) s false =
  Ok (str_join space_joiner
        (map (fun p => click_style p (Some red) None)
             (split_from 0 indent_marker s))).
Proof. intros H; unfold green_red; simpl; rewrite H; reflexivity. Qed.

(** With the indent of the constructor, colouring returns. *)
Lemma green_red_returns (l : Z) (s : pystr) (st : bool) :
  exists r, green_red (logger_at l) s st = Ok r.
Proof.
  destruct st.
  - rewrite green_red_true; eauto.
  - destruct (contains indent_marker s) eqn:E.
    + rewrite green_red_false_multi by exact E; eauto.
    + rewrite green_red_false_single by exact E; eauto.
Qed.

(** ** The entry filter *)

Section Filter.

Variable wrap : pystr -> Z -> list pystr.

Lemma filter_logs_app (self : CustomLogger) (pre l : list Log) :
  filter_logs wrap self (pre ++ l) =
  (a <- filter_logs wrap self pre ;;
   b <- filter_logs wrap self l ;;
   Ok (a ++ b)).
Proof.
  induction pre as [|e pre IH]; simpl.
  - destruct (filter_logs wrap self l); reflexivity.
  - destruct (Bool.eqb (status e) false || (level self <=? 0)); [|exact IH].
    destruct (entry_text wrap self e) as [r|x]; simpl; [|reflexivity].
    rewrite IH.
    destruct (filter_logs wrap self pre) as [a|x]; simpl; [|reflexivity].
    destruct (filter_logs wrap self l); reflexivity.
Qed.

Lemma entry_text_success (self : CustomLogger) (log : Log) :
  status log = true ->
  entry_text wrap self log =
  Ok (name log ++ lit ": " ++
      (if level self <=? 5
       then click_style (str_or (details log) check_glyph) (Some green) None
       else str_or (details log) check_glyph)).
Proof.
  intros H; unfold entry_text; rewrite H, green_red_true; reflexivity.
Qed.

Lemma entry_text_failure (l : Z) (log : Log) (d : pystr) :
  status log = false -> details log = Some d ->
  exists r,
    green_red (logger_at l) (str_join indent_marker (wrap d 88)) false = Ok r /\
    entry_text wrap (logger_at l) log = Ok (name log ++ lit ": " ++ r).
Proof.
  intros Hs Hd.
  destruct (green_red_returns l (str_join indent_marker (wrap d 88)) false)
    as [r Hr].
  exists r; split; [exact Hr|].
  unfold entry_text; rewrite Hs, Hd; simpl.
  change (_table_indent (logger_at l)) with indent_marker.
  rewrite Hr; reflexivity.
Qed.

End Filter.

Section FilterShape.

Variable wrap : pystr -> Z -> list pystr.

Lemma filter_logs_forall2 (self : CustomLogger) (content : list Log)
    (out : list pystr) :
  filter_logs wrap self content = Ok out ->
  Forall2 (fun log r => entry_text wrap self log = Ok r)
    (filter (selected self) content) out.
Proof.
  revert out; induction content as [|log rest IH]; intros out H.
  - injection H as <-; constructor.
  - cbn [filter_logs filter] in *; unfold selected at 1.
    destruct (Bool.eqb (status log) false || (level self <=? 0)).
    + destruct (entry_text wrap self log) as [r|e] eqn:E; [|discriminate H].
      destruct (filter_logs wrap self rest) as [rs|e]; [|discriminate H].
      injection H as <-; constructor; [exact E | apply IH; reflexivity].
    + apply IH; exact H.
Qed.

Lemma entry_text_prefix (self : CustomLogger) (log : Log) (r : pystr) :
  entry_text wrap self log = Ok r ->
  exists body, r = name log ++ lit ": " ++ body.
Proof.
  unfold entry_text; destruct (status log).
  - destruct (green_red self _ true) as [b|e]; [|discriminate].
    intros H; injection H as <-; exists b; reflexivity.
  - destruct (py_wrap wrap (details log) (width self)) as [ls|e];
      [|discriminate].
    cbn [bind]; destruct (green_red self _ false) as [b|e]; [|discriminate].
    intros H; injection H as <-; exists b; reflexivity.
Qed.

Lemma entry_text_returns_iff (l : Z) (log : Log) :
  (exists r, entry_text wrap (logger_at l) log = Ok r) <->
  (status log = false -> details log <> None).
Proof.
  split.
  - intros [r H] Hs Hd; unfold entry_text in H; rewrite Hs, Hd in H.
    discriminate H.
  - intros H; destruct (status log) eqn:Hs.
    + rewrite entry_text_success by exact Hs; eauto.
    + destruct (details log) as [d|] eqn:Hd.
      * destruct (entry_text_failure wrap l log d Hs Hd) as (r & _ & Hr).
        eauto.
      * exfalso; apply H; reflexivity.
Qed.

Lemma filter_logs_returns_iff_at (l : Z) (content : list Log) :
  (exists out, filter_logs wrap (logger_at l) content = Ok out) <->
  Forall (fun log => status log = false -> details log <> None) content.
Proof.
  induction content as [|log rest IH].
  - split; [constructor | intros _; exists []; reflexivity].
  - cbn [filter_logs].
    pose proof (entry_text_returns_iff l log) as Ht.
    destruct (Bool.eqb (status log) false || _) eqn:Sel.
    + destruct (entry_text wrap (logger_at l) log) as [r|e] eqn:E;
        cbn [bind].
      * assert (Hp : status log = false -> details log <> None)
          by (apply Ht; eauto).
        split.
        -- intros [out H]; constructor; [exact Hp|].
           apply IH.
           destruct (filter_logs wrap (logger_at l) rest); [eauto|].
           discriminate H.
        -- intros H; inversion H as [|? ? _ Hr]; subst.
           apply IH in Hr; destruct Hr as [out ->]; cbn [bind]; eauto.
      * split; [intros [out H]; discriminate H|].
        intros H; inversion H as [|? ? Hp _]; subst.
        apply Ht in Hp; destruct Hp as [r Hr]; discriminate Hr.
    + apply orb_false_iff in Sel; destruct Sel as [Hs _].
      rewrite IH; split.
      * intros H; constructor; [|exact H].
        intros Hf; rewrite Hf in Hs; discriminate Hs.
      * intros H; inversion H; assumption.
Qed.

End FilterShape.

Lemma entry_text_raise
    (wrap : pystr -> Z -> list pystr) (l : Z) (log : Log) (e : exn) :
  entry_text wrap (logger_at l) log = Raise e ->
  e = AttributeError /\ status log = false /\ details log = None.
Proof.
  unfold entry_text; destruct (status log) eqn:Hs.
  - rewrite green_red_true; discriminate.
  - destruct (details log) as [d|] eqn:Hd; simpl.
    + change (_table_indent (logger_at l)) with indent_marker.
      destruct (green_red_returns l (str_join indent_marker (wrap d 88)) false)
        as [r ->].
      discriminate.
    + intros H; injection H as <-; auto.
Qed.

Lemma filter_logs_raise
    (wrap : pystr -> Z -> list pystr) (l : Z) (content : list Log) (e : exn) :
  filter_logs wrap (logger_at l) content = Raise e -> e = AttributeError.
Proof.
  induction content as [|log rest IH]; simpl; [discriminate|].
  destruct (Bool.eqb (status log) false || (l <=? 0)); [|exact IH].
  destruct (entry_text wrap (logger_at l) log) as [r|x] eqn:E; simpl.
  - destruct (filter_logs wrap (logger_at l) rest) as [rs|x]; simpl;
      [discriminate|].
    intros H; injection H as <-; apply IH; reflexivity.
  - intros H; injection H as <-.
    apply entry_text_raise in E; apply E.
Qed.

(** ** C1: passing entries *)

(** C1, as the code has it: in an input whose other entries can be
    rendered, a passing entry is put in the output of [filter_logs], at its
    place and coloured green, when the logger was built for [verbose], and
    is left out when it was built for [minimal] or for [details]. *)
Theorem filter_logs_success_verbose_only
    (wrap : pystr -> Z -> list pystr) (nm : pystr) (self : CustomLogger)
    (log : Log) (pre post : list Log) :
  __init__ nm = Ok self -> status log = true ->
  Forall renderable pre -> Forall renderable post ->
  exists a b,
    filter_logs wrap self pre = Ok a /\
    filter_logs wrap self post = Ok b /\
    filter_logs wrap self (pre ++ log :: post) =
    Ok (a ++
        (if str_eqb nm verbose
         then [name log ++ lit ": " ++
               click_style (str_or (details log) check_glyph)
                 (Some green) None]
         else []) ++ b) /\
    (nm = verbose ->
     filter_logs wrap self [log] =
     Ok [name log ++ lit ": " ++
         click_style (str_or (details log) check_glyph) (Some green) None]) /\
    (nm <> verbose -> filter_logs wrap self [log] = Ok []).
Proof.
  intros Hi Hs Hpre Hpost.
  pose proof (init_shape nm self Hi) as Hself.
  assert (Ha : exists a, filter_logs wrap self pre = Ok a)
    by (rewrite Hself; apply filter_logs_returns_iff_at; exact Hpre).
  assert (Hb : exists b, filter_logs wrap self post = Ok b)
    by (rewrite Hself; apply filter_logs_returns_iff_at; exact Hpost).
  destruct Ha as [a Ha]; destruct Hb as [b Hb].
  exists a, b; split; [exact Ha|]; split; [exact Hb|].
  rewrite filter_logs_app, Ha.
  cbn [bind filter_logs]; rewrite Hb, Hs, (entry_text_success wrap self log Hs).
  apply init_cases in Hi.
  destruct Hi as [[-> ->]|[[-> ->]|[-> ->]]]; simpl.
  - repeat split; intros H; discriminate H.
  - repeat split; intros H; discriminate H.
  - repeat split; intros H; contradiction H; reflexivity.
Qed.

Lemma filter_logs_success_verbose_only_witness :
  __init__ verbose = Ok (logger_at 0) /\
  status entry_pass = true /\
  Forall renderable [entry_fail] /\
  Forall renderable [] /\
  filter_logs wrap_word (logger_at 0) ([entry_fail] ++ entry_pass :: []) =
  Ok [lit "schema: " ++
      click_style (lit "missing element X") (Some red) None;
      lit "well-formed: " ++ click_style check_glyph (Some green) None].
Proof.
  assert (Hf : Forall renderable [entry_fail])
    by (constructor; [intros _; discriminate | constructor]).
  split; [reflexivity|]. split; [reflexivity|].
  split; [exact Hf|]. split; [constructor|].
  destruct (filter_logs_success_verbose_only wrap_word verbose (logger_at 0)
              entry_pass [entry_fail] [] eq_refl eq_refl Hf (Forall_nil _))
    as (a & b & Ha & Hb & H & _).
  rewrite H.
  injection Ha as <-; injection Hb as <-; reflexivity.
Defined.

(** C1, as stated, fails at [details]: the passing entry is left out. *)
Lemma filter_logs_success_hidden_at_details :
  __init__ detailed = Ok (logger_at 5) /\
  status entry_pass = true /\
  (forall wrap, filter_logs wrap (logger_at 5) [entry_pass] = Ok []).
Proof. repeat split. Qed.

(** ** C2: failing entries *)

(** C2 fails on the code: at every level, and whatever the entries before
    and after it, a failing entry whose details are [None] is not put in
    the output: [filter_logs] raises and returns no output at all. *)
Theorem filter_logs_failure_without_details_lost
    (wrap : pystr -> Z -> list pystr) (nm : pystr) (self : CustomLogger)
    (n : pystr) (pre post : list Log) :
  __init__ nm = Ok self ->
  filter_logs wrap self (pre ++ mkLog n false None :: post) =
  Raise AttributeError.
Proof.
  intros Hi; rewrite (init_shape nm self Hi), filter_logs_app.
  destruct (filter_logs wrap (logger_at (level self)) pre) as [a|e] eqn:E.
  - reflexivity.
  - apply filter_logs_raise in E; subst e; reflexivity.
Qed.

Lemma filter_logs_failure_without_details_lost_witness :
  __init__ verbose = Ok (logger_at 0) /\
  filter_logs wrap_word (logger_at 0)
    ([entry_pass] ++ mkLog (lit "schema") false None :: [entry_fail]) =
  Raise AttributeError.
Proof.
  split; [reflexivity|].
  apply (filter_logs_failure_without_details_lost wrap_word verbose
           (logger_at 0) (lit "schema") [entry_pass] [entry_fail]
           eq_refl).
Defined.

(** ** C3: a failing entry without details *)

(** C3 fails on the code: for a failing entry whose details are [None],
    [filter_logs] hands [None] to [textwrap.wrap] and the call raises,
    whatever the logger and whatever the name of the entry. *)
Theorem filter_logs_failure_without_details_raises
    (wrap : pystr -> Z -> list pystr) (self : CustomLogger) (n : pystr) :
  filter_logs wrap self [mkLog n false None] = Raise AttributeError.
Proof. reflexivity. Qed.

(** ** C5 and C6: check marks and the colour of successes *)

(** C5, as the code has it: the failure glyph is coloured red at every level;
    the success glyph is coloured green at [details] and [verbose] and is
    returned bare at [minimal]. *)
Theorem checkmark_colours (nm : pystr) (self : CustomLogger) :
  __init__ nm = Ok self ->
  checkmark self false = Ok (click_style cross_glyph (Some red) None) /\
  (nm = minimal -> checkmark self true = Ok check_glyph) /\
  (nm = detailed \/ nm = verbose ->
   checkmark self true = Ok (click_style check_glyph (Some green) None)).
Proof.
  intros Hi; apply init_cases in Hi.
  destruct Hi as [[-> ->]|[[-> ->]|[-> ->]]];
    (split; [reflexivity|]); split; try reflexivity;
    intros H; try reflexivity; try discriminate H;
    destruct H as [H|H]; discriminate H.
Qed.

Lemma checkmark_colours_witness :
  __init__ detailed = Ok (logger_at 5) /\
  checkmark (logger_at 5) false =
    Ok (click_style cross_glyph (Some red) None) /\
  (detailed = minimal -> checkmark (logger_at 5) true = Ok check_glyph) /\
  (detailed = detailed \/ detailed = verbose ->
   checkmark (logger_at 5) true =
     Ok (click_style check_glyph (Some green) None)).
Proof.
  split; [reflexivity|].
  apply (checkmark_colours detailed (logger_at 5)); reflexivity.
Defined.

(** C5, as stated, fails at [minimal]: the success glyph comes back as it
    is, with no colour code around it. *)
Lemma checkmark_success_minimal_uncoloured :
  __init__ minimal = Ok (logger_at 10) /\
  checkmark (logger_at 10) true = Ok check_glyph /\
  (forall c, check_glyph <> click_style check_glyph (Some c) None) /\
  strip_ansi check_glyph = check_glyph.
Proof.
  repeat split. intros c H; symmetry in H; revert H; apply click_style_neq.
Qed.

(** C6: with a passing status the colourer returns the string in green when
    the threshold of the logger is at most 5, that is when it was built for
    [details] or [verbose], and returns the string itself when it was built
    for [minimal], threshold 10. *)
Theorem green_red_success_threshold
    (nm : pystr) (self : CustomLogger) (s : pystr) :
  __init__ nm = Ok self ->
  (green_red self s true = Ok (click_style s (Some green) None) <->
   level self <= 5) /\
  (level self <= 5 <-> nm = detailed \/ nm = verbose) /\
  (nm = minimal -> level self = 10 /\ green_red self s true = Ok s).
Proof.
  intros Hi; rewrite green_red_true.
  pose proof (click_style_neq s green) as Hne.
  apply init_cases in Hi.
  destruct Hi as [[-> ->]|[[-> ->]|[-> ->]]]; simpl.
  - split; [|split].
    + split; [intros H; injection H as H; congruence | lia].
    + split; [lia | intros [H|H]; discriminate H].
    + auto.
  - split; [|split].
    + split; [lia | reflexivity].
    + split; [auto | lia].
    + intros H; discriminate H.
  - split; [|split].
    + split; [lia | reflexivity].
    + split; [auto | lia].
    + intros H; discriminate H.
Qed.

Lemma green_red_success_threshold_witness :
  __init__ minimal = Ok (logger_at 10) /\
  (green_red (logger_at 10) (lit "ok") true =
     Ok (click_style (lit "ok") (Some green) None) <->
   level (logger_at 10) <= 5) /\
  (level (logger_at 10) <= 5 <-> minimal = detailed \/ minimal = verbose) /\
  (minimal = minimal ->
   level (logger_at 10) = 10 /\
   green_red (logger_at 10) (lit "ok") true = Ok (lit "ok")).
Proof.
  split; [reflexivity|].
  apply (green_red_success_threshold minimal (logger_at 10) (lit "ok"));
    reflexivity.
Defined.

(** ** C7: the level-gated append *)

(** C7, as the code has it: for a required level that has a threshold,
    [filter_append] appends the item exactly when the threshold of the
    required level is at least the threshold of the logger, and otherwise
    leaves the collection as it is; the collection grows by 0 or 1 and keeps
    its items in place. *)
Theorem filter_append_gate
    (A : Type) (cfg : pystr) (self : CustomLogger) (req : pystr) (r : Z)
    (haystack : list A) (hay : A) :
  __init__ cfg = Ok self -> dict_get (_eq self) req = Ok r ->
  exists out,
    filter_append self haystack hay req = Ok out /\
    (out = haystack ++ [hay] <-> r >= level self) /\
    (out = haystack <-> r < level self) /\
    firstn (length haystack) out = haystack /\
    (length out = length haystack \/ length out = S (length haystack)).
Proof.
  intros _ Hr; unfold filter_append; rewrite Hr; cbn [bind].
  assert (Hne : haystack ++ [hay] <> haystack).
  { intros H; apply (f_equal (@length A)) in H.
    rewrite length_app in H; simpl in H; lia. }
  destruct (r >=? level self) eqn:E; eexists; (split; [reflexivity|]).
  - apply Z.geb_le in E. repeat split; try (intros; lia); auto.
    + intros H; contradiction.
    + rewrite firstn_app, Nat.sub_diag, firstn_all; simpl; apply app_nil_r.
    + right; rewrite length_app; simpl; lia.
  - assert (r < level self) by (rewrite Z.geb_leb in E; apply Z.leb_gt in E; lia).
    repeat split; auto; try (intros; lia).
    + intros H'; symmetry in H'; contradiction.
    + apply firstn_all.
Qed.

Lemma filter_append_gate_witness :
  __init__ detailed = Ok (logger_at 5) /\
  dict_get (_eq (logger_at 5)) minimal = Ok 10 /\
  exists out,
    filter_append (logger_at 5) [1; 2] 3 minimal = Ok out /\
    (out = [1; 2] ++ [3] <-> 10 >= level (logger_at 5)) /\
    (out = [1; 2] <-> 10 < level (logger_at 5)) /\
    firstn (length [1; 2]) out = [1; 2] /\
    (length out = length [1; 2] \/ length out = S (length [1; 2])).
Proof.
  split; [reflexivity|]. split; [reflexivity|].
  apply (filter_append_gate Z detailed (logger_at 5) minimal 10 [1; 2] 3);
    reflexivity.
Defined.

(** C7, as stated, fails: a logger built for [verbose] (threshold 0) appends
    a row that requires [minimal] (threshold 10), although 0 is not at least
    10. *)
Lemma filter_append_verbose_takes_minimal :
  __init__ verbose = Ok (logger_at 0) /\
  dict_get (_eq (logger_at 0)) minimal = Ok 10 /\
  filter_append (logger_at 0) [1; 2] 3 minimal = Ok [1; 2; 3] /\
  ~ (level (logger_at 0) >= 10).
Proof. repeat split. simpl; lia. Qed.

(** ** Colouring failures: one pass and two *)

Lemma insert_before_absent (x sep s : pystr) :
  sep <> [] -> contains sep s = false -> insert_before x sep s = s.
Proof.
  intros Hsep; induction s as [|c s IH]; intros H; [reflexivity|].
  rewrite contains_cons in H; apply orb_false_iff in H; destruct H as [H1 H2].
  cbn [insert_before]; rewrite H1, (IH H2); reflexivity.
Qed.

Lemma insert_before_length_le (x y sep s : pystr) :
  (length x <= length y)%nat ->
  (length (insert_before x sep s) <= length (insert_before y sep s))%nat.
Proof.
  intros Hxy; induction s as [|c s IH]; [reflexivity|].
  cbn [insert_before]; rewrite !length_app; cbn [length].
  destruct (startswith sep (c :: s)); simpl; lia.
Qed.

Lemma insert_before_length_lt (x y sep s : pystr) :
  (length x < length y)%nat -> sep <> [] -> contains sep s = true ->
  (length (insert_before x sep s) < length (insert_before y sep s))%nat.
Proof.
  intros Hxy Hsep; induction s as [|c s IH]; intros H.
  - destruct sep; [contradiction | discriminate H].
  - rewrite contains_cons in H.
    cbn [insert_before]; rewrite !length_app; cbn [length].
    pose proof (insert_before_length_le x y sep s) as Hle.
    destruct (startswith sep (c :: s)); simpl in *; [lia|].
    apply IH in H; lia.
Qed.

Lemma insert_before_plain (x sep s : pystr) :
  plain x -> plain s -> plain (insert_before x sep s).
Proof.
  intros Hx; induction s as [|c s IH]; intros Hs; [exact Hs|].
  assert (Hs' : plain s) by (intros z Hz; apply Hs; right; exact Hz).
  assert (Hc : c <> ESC) by (apply Hs; left; reflexivity).
  specialize (IH Hs').
  cbn [insert_before]; intros z Hz.
  apply in_app_or in Hz; destruct Hz as [Hz|[<-|Hz]]; auto.
  destruct (startswith sep (c :: s)); [auto | contradiction].
Qed.

(** A joiner that starts with a breaker and holds no colour code is kept by
    the removal of the codes, which then works segment by segment. *)
Lemma strip_ansi_join (b : char) (y : pystr) (ps : list pystr) :
  breaker b = true ->
  (forall r, strip_ansi (b :: y ++ r) = b :: y ++ strip_ansi r) ->
  strip_ansi (str_join (b :: y) ps) = str_join (b :: y) (map strip_ansi ps).
Proof.
  intros Hb Hy; induction ps as [|p ps IH]; [reflexivity|].
  destruct ps as [|q ps]; [reflexivity|].
  change (map ?f (p :: ?l)) with (f p :: map f l).
  rewrite !str_join_cons by discriminate.
  change (p ++ (b :: y) ++ str_join (b :: y) (q :: ps))
    with (p ++ b :: (y ++ str_join (b :: y) (q :: ps))).
  rewrite strip_ansi_break by exact Hb.
  rewrite Hy, IH; reflexivity.
Qed.

Lemma join_split_marker (x s : pystr) :
  str_join (x ++ indent_marker) (split_from 0 indent_marker s) =
  insert_before x indent_marker s.
Proof.
  exact (join_split_from 10%N (lit "    ") indent_marker_no_border
           x 0 s (Nat.le_0_l _) (Forall_nil _)).
Qed.

(** A text read modulo colour codes, with [x], made of spaces, in front of
    every indent. *)
Lemma strip_ansi_insert_before (x s : pystr) :
  x = [] \/ x = lit " " \/ x = lit "  " ->
  strip_ansi (insert_before x indent_marker s) =
  str_join (x ++ indent_marker)
    (map strip_ansi (split_from 0 indent_marker s)).
Proof.
  intros Hx; rewrite <- join_split_marker.
  destruct Hx as [ -> | [ -> | -> ] ];
    apply strip_ansi_join; try reflexivity; intros r; reflexivity.
Qed.

Lemma contains_marker_style (p r : pystr) :
  contains indent_marker (ESC :: r) = false ->
  contains indent_marker p = false ->
  contains indent_marker (sgr (color_code red) ++ p ++ ESC :: r) = false.
Proof.
  intros Hr Hp.
  change (contains indent_marker (sgr (color_code red) ++ p ++ ESC :: r))
    with (contains indent_marker (p ++ ESC :: r)).
  rewrite contains_app_break, Hp, Hr; [reflexivity | discriminate |].
  simpl; intros [H|[H|[H|[H|[H|[]]]]]]; discriminate H.
Qed.

Lemma split_once (ps : list pystr) :
  ps <> [] -> Forall (fun p => contains indent_marker p = false) ps ->
  split_from 0 indent_marker
    (str_join space_joiner (map (fun p => click_style p (Some red) None) ps)) =
  coloured_segments ps.
Proof.
  induction ps as [|p ps IH]; intros Hne Hf; [contradiction|].
  inversion Hf as [|? ? Hp Hps]; subst.
  destruct ps as [|q ps].
  - cbn [map str_join coloured_segments].
    apply (split_no_sep 10%N (lit "    ")).
    rewrite click_style_fg.
    apply (contains_marker_style p (lit "[0m")); [reflexivity | exact Hp].
  - change (coloured_segments (p :: q :: ps))
      with ((click_style p (Some red) None ++
             click_style (lit " ") (Some reset) None) ::
            coloured_segments (q :: ps)).
    rewrite <- (IH ltac:(discriminate) Hps).
    change (map ?f (p :: ?l)) with (f p :: map f l).
    rewrite str_join_cons by discriminate.
    unfold space_joiner at 1; rewrite <- !app_assoc, app_assoc.
    apply (split_app_sep 10%N (lit "    ") indent_marker_no_border).
    rewrite click_style_fg, <- !app_assoc.
    apply (contains_marker_style p); [reflexivity | exact Hp].
Qed.

Lemma strip_coloured_segments (ps : list pystr) :
  str_join (32%N :: indent_marker) (map strip_ansi (coloured_segments ps)) =
  str_join (lit "  " ++ indent_marker) (map strip_ansi ps).
Proof.
  induction ps as [|p ps IH]; [reflexivity|].
  destruct ps as [|q ps].
  - simpl; apply strip_ansi_style.
  - change (coloured_segments (p :: q :: ps))
      with ((click_style p (Some red) None ++
             click_style (lit " ") (Some reset) None) ::
            coloured_segments (q :: ps)).
    change (map strip_ansi (?a :: coloured_segments (q :: ps)))
      with (strip_ansi a :: map strip_ansi (coloured_segments (q :: ps))).
    change (map strip_ansi (p :: q :: ps))
      with (strip_ansi p :: map strip_ansi (q :: ps)).
    rewrite (str_join_cons _ _ (map strip_ansi (coloured_segments (q :: ps))))
      by (destruct ps; discriminate).
    rewrite (str_join_cons _ _ (map strip_ansi (q :: ps))) by discriminate.
    rewrite IH.
    assert (E : strip_ansi (click_style p (Some red) None ++
                            click_style (lit " ") (Some reset) None) =
                strip_ansi p ++ [32%N]).
    { rewrite click_style_fg, <- !app_assoc, strip_ansi_sgr_color.
      change (sgr (lit "0") ++ click_style (lit " ") (Some reset) None)
        with (ESC :: (lit "[0m" ++
                      click_style (lit " ") (Some reset) None)).
      rewrite strip_ansi_break by reflexivity; reflexivity. }
    rewrite E, <- !app_assoc; reflexivity.
Qed.

(** What [green_red] returns for a failure, in one form for texts with and
    without indent. *)
Lemma green_red_false_form (l : Z) (s : pystr) :
  green_red (logger_at l) s false =
  Ok (str_join space_joiner
        (map (fun p => click_style p (Some red) None)
             (split_from 0 indent_marker s))).
Proof.
  destruct (contains indent_marker s) eqn:E.
  - apply green_red_false_multi; exact E.
  - rewrite green_red_false_single by exact E.
    rewrite (split_no_sep 10%N (lit "    ")) by exact E; reflexivity.
Qed.

(** One pass and two passes of the colourer over a failure text, read
    without the codes. *)
Lemma green_red_false_passes (l : Z) (s : pystr) :
  exists once twice,
    green_red (logger_at l) s false = Ok once /\
    green_red (logger_at l) once false = Ok twice /\
    strip_ansi once = strip_ansi (insert_before (lit " ") indent_marker s) /\
    strip_ansi twice = strip_ansi (insert_before (lit "  ") indent_marker s).
Proof.
  eexists; eexists.
  split; [apply green_red_false_form|].
  split; [apply green_red_false_form|].
  split.
  - rewrite strip_ansi_join_styled, strip_ansi_insert_before by auto.
    reflexivity.
  - rewrite split_once;
      [| apply split_from_nonempty
       | apply (split_segments_clean 10%N (lit "    ")
                  indent_marker_no_border) ].
    rewrite strip_ansi_join_styled, strip_coloured_segments.
    rewrite strip_ansi_insert_before by auto; reflexivity.
Qed.

Lemma str_join_length_le (x y : pystr) (qs : list pystr) :
  (length x <= length y)%nat ->
  (length (str_join x qs) <= length (str_join y qs))%nat.
Proof.
  intros Hxy; induction qs as [|p qs IH]; [reflexivity|].
  destruct qs as [|q qs]; [reflexivity|].
  rewrite (str_join_cons x), (str_join_cons y) by discriminate.
  rewrite !length_app; lia.
Qed.

Lemma str_join_length_lt (x y : pystr) (qs : list pystr) :
  (length x < length y)%nat -> (2 <= length qs)%nat ->
  (length (str_join x qs) < length (str_join y qs))%nat.
Proof.
  intros Hxy Hq; destruct qs as [|p [|q qs]]; [simpl in Hq; lia..|].
  rewrite (str_join_cons x), (str_join_cons y) by discriminate.
  pose proof (str_join_length_le x y (q :: qs)).
  rewrite !length_app; lia.
Qed.

(** A text that holds the indent has at least two segments. *)
Lemma split_marker_two (s : pystr) :
  contains indent_marker s = true ->
  (2 <= length (split_from 0 indent_marker s))%nat.
Proof.
  intros H.
  pose proof (join_split 10%N (lit "    ") indent_marker_no_border s) as J.
  pose proof (split_segments_clean 10%N (lit "    ") indent_marker_no_border
                0 s) as C.
  change (10%N :: lit "    ") with indent_marker in J, C.
  destruct (split_from 0 indent_marker s) as [|p [|q l]] eqn:E.
  - exfalso; revert E; apply split_from_nonempty.
  - simpl in J; subst p. inversion C as [|? ? Hp _]; congruence.
  - simpl; lia.
Qed.

(** With an indent in the text, the spaces put in front of it show in the
    length of the text read without the codes. *)
Lemma strip_insert_before_longer (x y s : pystr) :
  x = [] \/ x = lit " " \/ x = lit "  " ->
  y = [] \/ y = lit " " \/ y = lit "  " ->
  (length x < length y)%nat -> contains indent_marker s = true ->
  strip_ansi (insert_before y indent_marker s) <>
  strip_ansi (insert_before x indent_marker s).
Proof.
  intros Hx Hy Hxy Hs E.
  rewrite !strip_ansi_insert_before in E by assumption.
  apply (f_equal (@length char)) in E.
  pose proof (str_join_length_lt (x ++ indent_marker) (y ++ indent_marker)
                (map strip_ansi (split_from 0 indent_marker s))) as L.
  rewrite !length_app, length_map in L.
  specialize (L ltac:(lia) (split_marker_two s Hs)); lia.
Qed.

(** ** C8 and C10: failures coloured once and twice *)

(** C8, as the code has it: read without colour codes, a failure text
    coloured once is the text with one space in front of every indent, and
    coloured twice it is the text with two; the two readings agree for a text
    without indent and differ for a text with one. *)
Theorem green_red_failure_twice
    (nm : pystr) (self : CustomLogger) (s : pystr) :
  __init__ nm = Ok self ->
  exists once twice,
    green_red self s false = Ok once /\
    green_red self once false = Ok twice /\
    strip_ansi once = strip_ansi (insert_before (lit " ") indent_marker s) /\
    strip_ansi twice = strip_ansi (insert_before (lit "  ") indent_marker s) /\
    (contains indent_marker s = false -> strip_ansi twice = strip_ansi once) /\
    (contains indent_marker s = true -> strip_ansi twice <> strip_ansi once).
Proof.
  intros Hi; rewrite (init_shape nm self Hi).
  destruct (green_red_false_passes (level self) s)
    as (once & twice & H1 & H2 & S1 & S2).
  exists once, twice; repeat split; try assumption.
  - intros Hs; rewrite S1, S2.
    rewrite !insert_before_absent by (assumption || discriminate).
    reflexivity.
  - intros Hs; rewrite S1, S2.
    apply strip_insert_before_longer; auto.
Qed.

Lemma green_red_failure_twice_witness :
  __init__ detailed = Ok (logger_at 5) /\
  exists once twice,
    green_red (logger_at 5) (lit "missing element X") false = Ok once /\
    green_red (logger_at 5) once false = Ok twice /\
    strip_ansi once =
      strip_ansi (insert_before (lit " ") indent_marker
                    (lit "missing element X")) /\
    strip_ansi twice =
      strip_ansi (insert_before (lit "  ") indent_marker
                    (lit "missing element X")) /\
    (contains indent_marker (lit "missing element X") = false ->
     strip_ansi twice = strip_ansi once) /\
    (contains indent_marker (lit "missing element X") = true ->
     strip_ansi twice <> strip_ansi once).
Proof.
  split; [reflexivity|].
  apply (green_red_failure_twice detailed (logger_at 5)
           (lit "missing element X")); reflexivity.
Defined.

(** C8, as stated, fails on a wrapped text: the second pass leaves a second
    space in front of the indent. *)
Lemma green_red_failure_twice_not_idempotent :
  __init__ minimal = Ok (logger_at 10) /\
  exists once twice,
    green_red (logger_at 10) (lit "a" ++ indent_marker ++ lit "b") false =
      Ok once /\
    green_red (logger_at 10) once false = Ok twice /\
    strip_ansi once = lit "a " ++ indent_marker ++ lit "b" /\
    strip_ansi twice = lit "a  " ++ indent_marker ++ lit "b" /\
    strip_ansi twice <> strip_ansi once.
Proof.
  split; [reflexivity|].
  eexists; eexists.
  split; [reflexivity|]. split; [reflexivity|].
  split; [reflexivity|]. split; [reflexivity|].
  discriminate.
Qed.

(** C10: for a text that holds the indent, the colourer colours the segments
    between the indents one by one and joins them with an uncoloured space
    and the indent; read without colour codes the result is the text with
    one space in front of every indent, which is not the text. *)
Theorem green_red_failure_adds_space
    (nm : pystr) (self : CustomLogger) (s : pystr) :
  __init__ nm = Ok self -> contains indent_marker s = true ->
  exists out,
    green_red self s false = Ok out /\
    out = str_join (click_style (lit " ") (Some reset) None ++ indent_marker)
            (map (fun p => click_style p (Some red) None)
                 (split_from 0 indent_marker s)) /\
    strip_ansi out = strip_ansi (space_before_markers s) /\
    strip_ansi out <> strip_ansi s /\
    (length (space_before_markers s) > length s)%nat /\
    (plain s -> strip_ansi out = space_before_markers s /\ strip_ansi out <> s).
Proof.
  intros Hi Hs; rewrite (init_shape nm self Hi).
  eexists; split; [apply green_red_false_multi; exact Hs|].
  split; [reflexivity|].
  assert (E : strip_ansi
                (str_join space_joiner
                   (map (fun p => click_style p (Some red) None)
                        (split_from 0 indent_marker s))) =
              strip_ansi (space_before_markers s)).
  { unfold space_before_markers.
    rewrite strip_ansi_join_styled, strip_ansi_insert_before by auto.
    reflexivity. }
  assert (L : (length s < length (space_before_markers s))%nat).
  { apply insert_before_longer; [discriminate | discriminate | exact Hs]. }
  split; [exact E|]. split; [|split; [lia|]].
  - rewrite E; unfold space_before_markers.
    rewrite <- (insert_before_nil indent_marker s) at 2.
    apply strip_insert_before_longer; auto.
  - intros Hp; rewrite E.
    rewrite (strip_ansi_plain (space_before_markers s)).
    + split; [reflexivity|]. intros H; rewrite H in L; lia.
    + apply insert_before_plain; [|exact Hp].
      intros c [<-|[]]; discriminate.
Qed.

Lemma green_red_failure_adds_space_witness :
  __init__ minimal = Ok (logger_at 10) /\
  contains indent_marker (lit "a" ++ indent_marker ++ lit "b") = true /\
  exists out,
    green_red (logger_at 10) (lit "a" ++ indent_marker ++ lit "b") false =
      Ok out /\
    strip_ansi out = lit "a " ++ indent_marker ++ lit "b".
Proof.
  split; [reflexivity|]. split; [reflexivity|].
  destruct (green_red_failure_adds_space minimal (logger_at 10)
              (lit "a" ++ indent_marker ++ lit "b") eq_refl eq_refl)
    as (out & H1 & _ & _ & _ & _ & H2).
  exists out; split; [exact H1|].
  apply H2; intros c Hc; simpl in Hc.
  repeat (destruct Hc as [Hc|Hc]; [subst c; discriminate|]).
  contradiction.
Defined.

(** ** C9: level names that are not in the table *)

(** C9, as the code has it: a name that is not in the table makes the
    constructor raise the lookup error, so that no logger exists to render
    with; on a logger that was built, [filter_logs] never raises a lookup
    error and [green_red] and [checkmark] return; [header], [info] and
    [filter_append] look their own level name up at each call, return for
    the three names of the table and raise the lookup error for any other
    name. *)
Theorem unknown_level_raises_key_error
    (wrap : pystr -> Z -> list pystr) (title : pystr -> pystr)
    (nm : pystr) (self : CustomLogger) (bad : pystr) :
  __init__ nm = Ok self ->
  bad <> minimal -> bad <> detailed -> bad <> verbose ->
  __init__ bad = Raise (KeyError bad) /\
  (forall content k, filter_logs wrap self content <> Raise (KeyError k)) /\
  (forall s st, exists r, green_red self s st = Ok r) /\
  (forall st, exists r, checkmark self st = Ok r) /\
  (forall out s indent (hs : list pystr) hay,
     header title self out s bad = Raise (KeyError bad) /\
     info self out s bad indent = Raise (KeyError bad) /\
     filter_append self hs hay bad = Raise (KeyError bad)) /\
  (forall lvl out s indent (hs : list pystr) hay,
     lvl = minimal \/ lvl = detailed \/ lvl = verbose ->
     (exists o, header title self out s lvl = Ok o) /\
     (exists o, info self out s lvl indent = Ok o) /\
     (exists o, filter_append self hs hay lvl = Ok o)).
Proof.
  intros Hi B1 B2 B3; rewrite (init_shape nm self Hi).
  pose proof (thresholds_unknown bad B1 B2 B3) as Hbad.
  split; [unfold __init__; rewrite Hbad; reflexivity|].
  split; [intros content k H; apply filter_logs_raise in H; discriminate|].
  split; [intros s st; apply green_red_returns|].
  split; [intros [|]; apply green_red_returns|].
  split.
  - intros out s indent hs hay.
    unfold header, info, _print, filter_append, logger_at; cbn [_eq].
    rewrite Hbad; auto.
  - intros lvl out s indent hs hay Hl.
    assert (Hv : exists v, dict_get thresholds lvl = Ok v).
    { destruct Hl as [ -> | [ -> | -> ] ]; eexists; reflexivity. }
    destruct Hv as [v Hv].
    unfold header, info, _print, filter_append, logger_at; cbn [_eq].
    rewrite Hv; cbn [bind].
    destruct (v >=? _); repeat split; eexists; reflexivity.
Qed.

Lemma unknown_level_raises_key_error_witness :
  __init__ minimal = Ok (logger_at 10) /\
  lit "debug" <> minimal /\ lit "debug" <> detailed /\
  lit "debug" <> verbose /\
  __init__ (lit "debug") = Raise (KeyError (lit "debug")) /\
  filter_append (logger_at 10) [lit "File"] (lit "row") (lit "debug") =
    Raise (KeyError (lit "debug")).
Proof.
  split; [reflexivity|].
  split; [discriminate|]. split; [discriminate|]. split; [discriminate|].
  destruct (unknown_level_raises_key_error wrap_word title_ascii minimal
              (logger_at 10) (lit "debug") eq_refl
              ltac:(discriminate) ltac:(discriminate) ltac:(discriminate))
    as (H1 & _ & _ & _ & H2 & _).
  split; [exact H1|].
  apply (H2 [] [] 0 [lit "File"] (lit "row")).
Defined.

(** C9, as stated, fails: on a logger that was built, a call of
    [filter_append], [info] or [header] with a level name that is not in
    the table raises at run time. *)
Lemma rendering_raises_on_unknown_level :
  __init__ minimal = Ok (logger_at 10) /\
  filter_append (logger_at 10) [lit "File"] (lit "row") (lit "debug") =
    Raise (KeyError (lit "debug")) /\
  info (logger_at 10) [] (lit "Found 1 resource(s)") (lit "debug") 0 =
    Raise (KeyError (lit "debug")) /\
  header title_ascii (logger_at 10) [] (lit "Report") (lit "debug") =
    Raise (KeyError (lit "debug")).
Proof. repeat split. Qed.

(** ** C4: the text of an entry with details *)





















(** * Further properties of the renderer *)

(** ** The entry filter: order, count and errors *)


(** X1.  When [filter_logs] returns, its lines are the texts of the entries
    that pass the guard (failing, or any entry when the threshold of the
    logger is at most 0), one line per such entry and in the order of the
    input; every line starts with the name of its entry, a colon and a
    space; the output is never longer than the input. *)
Theorem filter_logs_keeps_order
    (wrap : pystr -> Z -> list pystr) (self : CustomLogger)
    (content : list Log) (out : list pystr) :
  filter_logs wrap self content = Ok out ->
  Forall2 (fun log r =>
             entry_text wrap self log = Ok r /\
             exists body, r = name log ++ lit ": " ++ body)
    (filter (selected self) content) out /\
  (length out <= length content)%nat.
Proof.
  intros H; apply filter_logs_forall2 in H.
  split.
  - eapply Forall2_impl; [|exact H].
    intros log r Hr; split; [exact Hr | eapply entry_text_prefix; exact Hr].
  - apply Forall2_length in H; rewrite <- H; apply filter_length_le.
Qed.

Lemma filter_logs_keeps_order_witness :
  filter_logs wrap_word (logger_at 5) [entry_pass; entry_fail] =
    Ok [lit "schema: " ++
        click_style (lit "missing element X") (Some red) None] /\
  (length [lit "schema: " ++
           click_style (lit "missing element X") (Some red) None]
   <= length [entry_pass; entry_fail])%nat.
Proof.
  split; [reflexivity|].
  apply (filter_logs_keeps_order wrap_word (logger_at 5)
           [entry_pass; entry_fail]); reflexivity.
Defined.

(** X2.  On a logger built by the constructor, [filter_logs] returns exactly
    when every failing entry of the input has a details text; otherwise the
    exception it raises is the [AttributeError] of [textwrap.wrap]. *)
Theorem filter_logs_returns_iff
    (wrap : pystr -> Z -> list pystr) (nm : pystr) (self : CustomLogger)
    (content : list Log) :
  __init__ nm = Ok self ->
  ((exists out, filter_logs wrap self content = Ok out) <->
   Forall (fun log => status log = false -> details log <> None) content) /\
  (forall e, filter_logs wrap self content = Raise e -> e = AttributeError).
Proof.
  intros Hi; rewrite (init_shape nm self Hi); split.
  - apply filter_logs_returns_iff_at.
  - intros e; apply filter_logs_raise.
Qed.

Lemma filter_logs_returns_iff_witness :
  __init__ verbose = Ok (logger_at 0) /\
  ((exists out,
      filter_logs wrap_word (logger_at 0) [entry_pass; entry_fail] = Ok out)
   <->
   Forall (fun log => status log = false -> details log <> None)
     [entry_pass; entry_fail]) /\
  (forall e,
     filter_logs wrap_word (logger_at 0) [entry_pass; entry_fail] = Raise e ->
     e = AttributeError).
Proof.
  split; [reflexivity|].
  apply (filter_logs_returns_iff wrap_word verbose (logger_at 0)
           [entry_pass; entry_fail]); reflexivity.
Defined.

Lemma entry_text_failure_level
    (wrap : pystr -> Z -> list pystr) (l l' : Z) (log : Log) :
  status log = false ->
  entry_text wrap (logger_at l) log = entry_text wrap (logger_at l') log.
Proof. intros Hs; unfold entry_text; rewrite Hs; reflexivity. Qed.

(** [filter_logs] on failing entries does not depend on the threshold. *)
Lemma filter_logs_failing_level
    (wrap : pystr -> Z -> list pystr) (l l' : Z) (content : list Log) :
  Forall (fun log => status log = false) content ->
  filter_logs wrap (logger_at l) content =
  filter_logs wrap (logger_at l') content.
Proof.
  induction 1 as [|log rest Hs _ IH]; [reflexivity|].
  cbn [filter_logs]; rewrite Hs; cbn [Bool.eqb orb].
  rewrite (entry_text_failure_level wrap l l' log Hs), IH; reflexivity.
Qed.

(** Above threshold 0 the passing entries are skipped. *)
Lemma filter_logs_skips_passing
    (wrap : pystr -> Z -> list pystr) (l : Z) (content : list Log) :
  0 < l ->
  filter_logs wrap (logger_at l) content =
  filter_logs wrap (logger_at l)
    (filter (fun log => negb (status log)) content).
Proof.
  intros Hl; induction content as [|log rest IH]; [reflexivity|].
  cbn [filter_logs filter level logger_at].
  assert (E : (l <=? 0) = false) by (apply Z.leb_gt; exact Hl).
  rewrite E; destruct (status log) eqn:Hs; cbn [Bool.eqb orb negb].
  - exact IH.
  - cbn [filter_logs level logger_at]; rewrite Hs, E, IH; reflexivity.
Qed.

Lemma failing_filter (content : list Log) :
  Forall (fun log => status log = false)
    (filter (fun log => negb (status log)) content).
Proof.
  apply Forall_forall; intros log H; apply filter_In in H.
  destruct H as [_ H]; apply negb_true_iff in H; exact H.
Qed.

(** X3.  A logger built for [minimal] or [details] gives for an input
    exactly what any logger, [verbose] included, gives for the failing
    entries of that input alone, lines and exception alike; in particular
    [minimal] and [details] give the same. *)
Theorem filter_logs_terse_is_failures
    (wrap : pystr -> Z -> list pystr) (nm nm' : pystr)
    (self self' : CustomLogger) (content : list Log) :
  __init__ nm = Ok self -> nm <> verbose -> __init__ nm' = Ok self' ->
  filter_logs wrap self content =
  filter_logs wrap self' (filter (fun log => negb (status log)) content).
Proof.
  intros Hi Hn Hi'.
  rewrite (init_shape nm' self' Hi').
  apply init_cases in Hi.
  destruct Hi as [[_ ->]|[[_ ->]|[-> _]]]; [| |contradiction Hn; reflexivity].
  - rewrite filter_logs_skips_passing by lia.
    apply filter_logs_failing_level, failing_filter.
  - rewrite filter_logs_skips_passing by lia.
    apply filter_logs_failing_level, failing_filter.
Qed.

Lemma filter_logs_terse_is_failures_witness :
  __init__ detailed = Ok (logger_at 5) /\
  detailed <> verbose /\
  __init__ verbose = Ok (logger_at 0) /\
  filter_logs wrap_word (logger_at 5) [entry_pass; entry_fail] =
  filter_logs wrap_word (logger_at 0)
    (filter (fun log => negb (status log)) [entry_pass; entry_fail]).
Proof.
  split; [reflexivity|]. split; [discriminate|]. split; [reflexivity|].
  apply (filter_logs_terse_is_failures wrap_word detailed verbose);
    [reflexivity | discriminate | reflexivity].
Defined.

(** X4.  When [filter_logs] returns, a logger built for [verbose] has given
    one line for every entry, and a logger built for [minimal] or [details]
    one line for every failing entry. *)
Theorem filter_logs_count
    (wrap : pystr -> Z -> list pystr) (nm : pystr) (self : CustomLogger)
    (content : list Log) (out : list pystr) :
  __init__ nm = Ok self -> filter_logs wrap self content = Ok out ->
  length out =
  if str_eqb nm verbose then length content
  else length (filter (fun log => negb (status log)) content).
Proof.
  intros Hi H; apply filter_logs_forall2, Forall2_length in H.
  rewrite <- H; clear H.
  assert (Hall : forall l, l <= 0 ->
            filter (selected (logger_at l)) content = content).
  { intros l Hl; induction content as [|log rest IH]; [reflexivity|].
    cbn [filter]; unfold selected at 1; cbn [level logger_at].
    apply Z.leb_le in Hl; rewrite Hl, orb_true_r, IH; reflexivity. }
  assert (Hfail : forall l, 0 < l ->
            filter (selected (logger_at l)) content =
            filter (fun log => negb (status log)) content).
  { intros l Hl; apply filter_ext; intros log.
    unfold selected; cbn [level logger_at].
    apply Z.leb_gt in Hl; rewrite Hl, orb_false_r.
    destruct (status log); reflexivity. }
  apply init_cases in Hi.
  destruct Hi as [[-> ->]|[[-> ->]|[-> ->]]].
  - rewrite Hfail by lia; reflexivity.
  - rewrite Hfail by lia; reflexivity.
  - rewrite Hall by lia; reflexivity.
Qed.

Lemma filter_logs_count_witness :
  __init__ verbose = Ok (logger_at 0) /\
  (exists out,
     filter_logs wrap_word (logger_at 0) [entry_pass; entry_fail] = Ok out /\
     length out = 2%nat).
Proof.
  split; [reflexivity|].
  eexists; split; [reflexivity|].
  apply (filter_logs_count wrap_word verbose (logger_at 0)
           [entry_pass; entry_fail]); reflexivity.
Defined.

(** ** Check marks and colours read without the codes *)

(** X5.  At every level the check mark, read without colour codes, is the
    glyph of the status, so that the check marks of a success and of a
    failure always differ. *)
Theorem checkmark_readable (nm : pystr) (self : CustomLogger) :
  __init__ nm = Ok self ->
  (forall st, exists r,
     checkmark self st = Ok r /\
     strip_ansi r = if st then check_glyph else cross_glyph) /\
  checkmark self true <> checkmark self false.
Proof.
  intros Hi; apply init_cases in Hi.
  destruct Hi as [[_ ->]|[[_ ->]|[_ ->]]];
    (split; [intros [|]; eexists; split; reflexivity | discriminate]).
Qed.

Lemma checkmark_readable_witness :
  __init__ minimal = Ok (logger_at 10) /\
  (forall st, exists r,
     checkmark (logger_at 10) st = Ok r /\
     strip_ansi r = if st then check_glyph else cross_glyph) /\
  checkmark (logger_at 10) true <> checkmark (logger_at 10) false.
Proof.
  split; [reflexivity|].
  apply (checkmark_readable minimal (logger_at 10)); reflexivity.
Defined.

(** X6.  For a text that does not hold the indent, the colourer changes
    nothing but the colour codes, whatever the status and the level: read
    without the codes, its result is the text read without the codes, and
    the text itself when the text has no escape character. *)
Theorem green_red_keeps_text
    (nm : pystr) (self : CustomLogger) (s : pystr) (st : bool) :
  __init__ nm = Ok self -> contains indent_marker s = false ->
  exists r,
    green_red self s st = Ok r /\
    strip_ansi r = strip_ansi s /\
    (plain s -> strip_ansi r = s).
Proof.
  intros Hi Hs; rewrite (init_shape nm self Hi).
  assert (Hp : forall r, strip_ansi r = strip_ansi s ->
                 plain s -> strip_ansi r = s).
  { intros r Hr Hpl; rewrite Hr; apply strip_ansi_plain; exact Hpl. }
  destruct st.
  - rewrite green_red_true.
    destruct (level (logger_at (level self)) <=? 5); eexists;
      (split; [reflexivity|]).
    + pose proof (strip_ansi_style s green); auto.
    + auto.
  - rewrite green_red_false_single by exact Hs.
    eexists; split; [reflexivity|].
    pose proof (strip_ansi_style s red); auto.
Qed.

Lemma green_red_keeps_text_witness :
  __init__ detailed = Ok (logger_at 5) /\
  contains indent_marker (lit "missing element X") = false /\
  exists r,
    green_red (logger_at 5) (lit "missing element X") false = Ok r /\
    strip_ansi r = lit "missing element X".
Proof.
  split; [reflexivity|]. split; [reflexivity|].
  destruct (green_red_keeps_text detailed (logger_at 5)
              (lit "missing element X") false eq_refl eq_refl)
    as (r & H1 & H2 & _).
  exists r; split; [exact H1 | exact H2].
Defined.

(** ** Small capitals *)

(** Case analysis on a character against a list of code points. *)
Ltac split_char c ks :=
  lazymatch ks with
  | nil => idtac
  | cons ?k ?ks' => destruct (N.eq_dec c k) as [->|?]; [|split_char c ks']
  end.

(** Evaluates the table on the code points that are known. *)
Ltac eval_translate :=
  repeat match goal with
         | |- context [translate1 small_caps_map ?k] =>
             let v := eval vm_compute in (translate1 small_caps_map k) in
             progress change (translate1 small_caps_map k) with v
         end.

Lemma translate1_other (tbl : list (char * char)) (c : char) :
  (forall k v, In (k, v) tbl -> k <> c) -> translate1 tbl c = c.
Proof.
  induction tbl as [|[k v] tbl IH]; intros H; [reflexivity|].
  cbn [translate1].
  destruct (N.eqb_spec k c) as [E|_].
  - exfalso; apply (H k v); [left; reflexivity | exact E].
  - apply IH; intros k' v' Hin; apply (H k' v'); right; exact Hin.
Qed.

Lemma small_caps_keys (k v : char) :
  In (k, v) small_caps_map -> (97 <= k <= 122)%N.
Proof.
  intros H; vm_compute in H.
  repeat (destruct H as [H|H]; [injection H as <- _; lia|]).
  contradiction.
Qed.

(** What the table does to one character: it moves every lower-case letter
    but [s] and [x] out of the lower-case letters, and nothing else. *)
Lemma small_caps_char (c : char) :
  (translate1 small_caps_map c = c <->
   ((97 <= c <= 122)%N -> c = 115%N \/ c = 120%N)) /\
  translate1 small_caps_map (translate1 small_caps_map c) =
  translate1 small_caps_map c.
Proof.
  split_char c [97; 98; 99; 100; 101; 102; 103; 104; 105; 106; 107; 108;
                109; 110; 111; 112; 113; 114; 115; 116; 117; 118; 119; 120;
                121; 122]%N;
    try (eval_translate; split; [split; [discriminate | lia] | reflexivity]);
    try (eval_translate; split; [split; [lia | reflexivity] | reflexivity]).
  assert (E : translate1 small_caps_map c = c).
  { apply translate1_other; intros k v Hin.
    apply small_caps_keys in Hin; lia. }
  rewrite !E; split; [split; [lia | reflexivity] | reflexivity].
Qed.

(** The image of one character: a lower-case letter goes to the small
    capital at its place in the alphabet, any other character to itself. *)
Lemma small_caps_image (c : char) :
  ((97 <= c <= 122)%N ->
   translate1 small_caps_map c =
   nth (N.to_nat (c - 97)) small_caps_letters c) /\
  (~ (97 <= c <= 122)%N -> translate1 small_caps_map c = c).
Proof.
  split_char c [97; 98; 99; 100; 101; 102; 103; 104; 105; 106; 107; 108;
                109; 110; 111; 112; 113; 114; 115; 116; 117; 118; 119; 120;
                121; 122]%N;
    try (split; [intros _; vm_compute; reflexivity
                | intros H; exfalso; apply H; lia]).
  split; [intros H; lia|].
  intros _; apply translate1_other; intros k v Hin.
  apply small_caps_keys in Hin; lia.
Qed.

(** X7.  [to_small_caps] works character by character: the result has the
    length of the text, a lower-case ASCII letter is replaced by the small
    capital at its place in the alphabet and every other character passes
    through; the text comes back unchanged exactly when its only lower-case
    ASCII letters are [s] and [x], the two letters that the table maps to
    themselves. *)
Theorem to_small_caps_unchanged_iff (text : pystr) :
  Forall2 (fun c c' =>
             ((97 <= c <= 122)%N ->
              c' = nth (N.to_nat (c - 97)) small_caps_letters c) /\
             (~ (97 <= c <= 122)%N -> c' = c))
    text (to_small_caps text) /\
  (to_small_caps text = text <->
   Forall (fun c => (97 <= c <= 122)%N -> c = 115%N \/ c = 120%N) text).
Proof.
  unfold to_small_caps; split.
  - induction text as [|c text IH]; [constructor|].
    cbn [map]; constructor; [apply small_caps_image | exact IH].
  - induction text as [|c text IH].
    + split; [constructor | reflexivity].
    + cbn [map]; split.
      * intros H; injection H as Hc Ht.
        constructor; [apply small_caps_char; exact Hc | apply IH; exact Ht].
      * intros H; inversion H as [|? ? Hc Ht]; subst.
        f_equal; [apply small_caps_char; exact Hc | apply IH; exact Ht].
Qed.

(** X8.  [to_small_caps] is idempotent: its result holds no letter that the
    table would change again. *)
Theorem to_small_caps_idempotent (text : pystr) :
  to_small_caps (to_small_caps text) = to_small_caps text.
Proof.
  unfold to_small_caps; rewrite map_map.
  apply map_ext; intros c; apply small_caps_char.
Qed.

(** ** The verbosity gate *)

Lemma geb_trans_level (v a b : Z) :
  b <= a -> (v >=? a) = true -> (v >=? b) = true.
Proof. rewrite !Z.geb_leb, !Z.leb_le; lia. Qed.

(** X9.  What is asked for at the level ["minimal"], the default of
    [header], [info] and [filter_append], is never held back: every logger
    built by the constructor echoes the header and the information line and
    appends the row. *)
Theorem minimal_level_always_shown
    (title : pystr -> pystr) (nm : pystr) (self : CustomLogger)
    (out : stream) (s : pystr) (indent : Z)
    (haystack : list (list pystr)) (hay : list pystr) :
  __init__ nm = Ok self ->
  header title self out s minimal =
    Ok (out ++
        [click_style
           (10%N :: lit "==== " ++ to_small_caps (title s) ++ lit " ====")
           None (Some true)]) /\
  info self out s minimal indent =
    Ok (out ++
        [click_style (str_repeat indent [9%N] ++ lit "INFO: " ++ s)
           (Some cyan) None]) /\
  filter_append self haystack hay minimal = Ok (haystack ++ [hay]).
Proof.
  intros Hi; apply init_cases in Hi.
  destruct Hi as [[_ ->]|[[_ ->]|[_ ->]]]; repeat split.
Qed.

Lemma minimal_level_always_shown_witness :
  __init__ verbose = Ok (logger_at 0) /\
  filter_append (logger_at 0) [[lit "File"]] [lit "a.xml"] minimal =
    Ok ([[lit "File"]] ++ [[lit "a.xml"]]).
Proof.
  split; [reflexivity|].
  apply (minimal_level_always_shown title_ascii verbose (logger_at 0)
           [] [] 0 [[lit "File"]] [lit "a.xml"]); reflexivity.
Defined.

(** X10.  The gate is monotone in the verbosity: what a logger echoes or
    appends for a level name, every logger with a lower or equal threshold
    echoes or appends too. *)
Theorem gate_monotone
    (a b : pystr) (lga lgb : CustomLogger) (lvl : pystr)
    (out : stream) (s : pystr) (indent : Z) (fg : option color)
    (bold : option bool) (haystack : list (list pystr)) (hay : list pystr) :
  __init__ a = Ok lga -> __init__ b = Ok lgb -> level lgb <= level lga ->
  (forall m, _print lga out s lvl indent fg bold = Ok (out ++ [m]) ->
             _print lgb out s lvl indent fg bold = Ok (out ++ [m])) /\
  (filter_append lga haystack hay lvl = Ok (haystack ++ [hay]) ->
   filter_append lgb haystack hay lvl = Ok (haystack ++ [hay])).
Proof.
  intros Ha Hb Hle.
  rewrite (init_shape a lga Ha), (init_shape b lgb Hb).
  unfold _print, filter_append, logger_at; cbn [_eq level].
  destruct (dict_get thresholds lvl) as [v|e]; cbn [bind];
    [|split; [intros m H|intros H]; discriminate H].
  destruct (v >=? level lga) eqn:E.
  - rewrite (geb_trans_level v _ _ Hle E); auto.
  - split.
    + intros m H; injection H as H.
      apply (f_equal (@length pystr)) in H.
      rewrite length_app in H; simpl in H; lia.
    + intros H; injection H as H.
      apply (f_equal (@length (list pystr))) in H.
      rewrite length_app in H; simpl in H; lia.
Qed.

Lemma gate_monotone_witness :
  __init__ detailed = Ok (logger_at 5) /\
  __init__ verbose = Ok (logger_at 0) /\
  level (logger_at 0) <= level (logger_at 5) /\
  (filter_append (logger_at 5) [[lit "File"]] [lit "a.xml"] detailed =
     Ok ([[lit "File"]] ++ [[lit "a.xml"]]) ->
   filter_append (logger_at 0) [[lit "File"]] [lit "a.xml"] detailed =
     Ok ([[lit "File"]] ++ [[lit "a.xml"]])).
Proof.
  split; [reflexivity|]. split; [reflexivity|]. split; [simpl; lia|].
  apply (gate_monotone detailed verbose (logger_at 5) (logger_at 0) detailed
           [] [] 0 None None [[lit "File"]] [lit "a.xml"]);
    [reflexivity | reflexivity | simpl; lia].
Defined.

(** ** The text of a failing entry, line by line *)

(** Lines without indent, joined by the indent and split on it, come back. *)
Lemma split_join_lines (lines : list pystr) :
  lines <> [] ->
  Forall (fun line => contains indent_marker line = false) lines ->
  split_from 0 indent_marker (str_join indent_marker lines) = lines.
Proof.
  induction lines as [|p lines IH]; intros Hne Hf; [contradiction|].
  inversion Hf as [|? ? Hp Hl]; subst.
  destruct lines as [|q lines].
  - apply (split_no_sep 10%N (lit "    ")); exact Hp.
  - rewrite str_join_cons by discriminate.
    rewrite <- (IH ltac:(discriminate) Hl) at 2.
    apply (split_app_sep 10%N (lit "    ") indent_marker_no_border).
    exact Hp.
Qed.

(** X11.  For a failing entry whose details wrap to lines that do not hold
    the indent themselves, the text is the name, a colon and a space, and
    the wrapped lines coloured red one by one and joined by an uncoloured
    space and the indent: what [filter_logs] joins, [green_red] splits
    again into the same lines. *)
Theorem failing_lines_coloured_one_by_one
    (wrap : pystr -> Z -> list pystr) (nm : pystr) (self : CustomLogger)
    (log : Log) (d : pystr) :
  __init__ nm = Ok self -> status log = false -> details log = Some d ->
  wrap d 88 <> [] ->
  Forall (fun line => contains indent_marker line = false) (wrap d 88) ->
  entry_text wrap self log =
  Ok (name log ++ lit ": " ++
      str_join (click_style (lit " ") (Some reset) None ++ indent_marker)
        (map (fun line => click_style line (Some red) None) (wrap d 88))).
Proof.
  intros Hi Hs Hd Hne Hf; rewrite (init_shape nm self Hi).
  unfold entry_text; rewrite Hs, Hd.
  cbn [py_wrap width logger_at Z.leb Z.compare bind].
  change (_table_indent (logger_at (level self))) with indent_marker.
  rewrite green_red_false_form, (split_join_lines _ Hne Hf).
  reflexivity.
Qed.

Lemma failing_lines_coloured_one_by_one_witness :
  __init__ minimal = Ok (logger_at 10) /\
  status entry_long_fail = false /\
  details entry_long_fail = Some long_details /\
  wrap_word long_details 88 <> [] /\
  Forall (fun line => contains indent_marker line = false)
    (wrap_word long_details 88) /\
  entry_text wrap_word (logger_at 10) entry_long_fail =
  Ok (name entry_long_fail ++ lit ": " ++
      str_join (click_style (lit " ") (Some reset) None ++ indent_marker)
        (map (fun line => click_style line (Some red) None)
             (wrap_word long_details 88))).
Proof.
  assert (Hne : wrap_word long_details 88 <> []) by (vm_compute; discriminate).
  assert (Hf : Forall (fun line => contains indent_marker line = false)
                 (wrap_word long_details 88)).
  { apply Forall_forall; intros line Hin.
    vm_compute in Hin.
    repeat (destruct Hin as [<-|Hin]; [vm_compute; reflexivity|]).
    contradiction. }
  split; [reflexivity|]. split; [reflexivity|]. split; [reflexivity|].
  split; [exact Hne|]. split; [exact Hf|].
  apply (failing_lines_coloured_one_by_one wrap_word minimal (logger_at 10)
           entry_long_fail long_details eq_refl eq_refl eq_refl Hne Hf).
Defined.

(** X12.  A failing entry whose details are present but wrap to no line at
    all, as an empty text does, is still shown: its text is the name, a
    colon and a space, and an empty red text. *)
Theorem failing_blank_details
    (wrap : pystr -> Z -> list pystr) (nm : pystr) (self : CustomLogger)
    (log : Log) (d : pystr) :
  __init__ nm = Ok self -> status log = false -> details log = Some d ->
  wrap d 88 = [] ->
  filter_logs wrap self [log] =
  Ok [name log ++ lit ": " ++ click_style [] (Some red) None].
Proof.
  intros Hi Hs Hd Hw; rewrite (init_shape nm self Hi).
  cbn [filter_logs]; unfold entry_text; rewrite Hs, Hd.
  cbn [py_wrap width logger_at Z.leb Z.compare bind Bool.eqb orb].
  rewrite Hw; reflexivity.
Qed.

Lemma failing_blank_details_witness :
  __init__ minimal = Ok (logger_at 10) /\
  status (mkLog (lit "schema") false (Some [])) = false /\
  details (mkLog (lit "schema") false (Some [])) = Some [] /\
  wrap_word [] 88 = [] /\
  filter_logs wrap_word (logger_at 10) [mkLog (lit "schema") false (Some [])] =
  Ok [name (mkLog (lit "schema") false (Some [])) ++ lit ": " ++
      click_style [] (Some red) None].
Proof.
  split; [reflexivity|]. split; [reflexivity|]. split; [reflexivity|].
  split; [reflexivity|].
  apply (failing_blank_details wrap_word minimal (logger_at 10)
           (mkLog (lit "schema") false (Some [])) []); reflexivity.
Defined.

(** ** The tables of [cli] *)

Section Tables.

Variable wrap : pystr -> Z -> list pystr.

Lemma file_row_returns_iff (l : Z) (label : pystr) (res : Result.t) :
  (exists row, file_row wrap (logger_at l) label res = Ok row) <->
  Forall (fun log => status log = false -> details log <> None)
    (Result.statuses res).
Proof.
  unfold file_row, checkmark.
  destruct (green_red_returns l check_glyph true) as [m1 H1].
  destruct (green_red_returns l cross_glyph false) as [m2 H2].
  rewrite <- (filter_logs_returns_iff_at wrap l).
  destruct (Result.status res); [rewrite H1 | rewrite H2]; cbn [bind];
    (split; intros [x H];
     [ destruct (filter_logs wrap (logger_at l) (Result.statuses res));
       [eauto | discriminate H]
     | rewrite H; cbn [bind]; eauto ]).
Qed.

Lemma file_row_shape (self : CustomLogger) (label : pystr) (res : Result.t)
    (row : list pystr) :
  file_row wrap self label res = Ok row ->
  exists mark logs,
    checkmark self (Result.status res) = Ok mark /\
    filter_logs wrap self (Result.statuses res) = Ok logs /\
    row = [label; mark; str_join [10%N] logs].
Proof.
  unfold file_row.
  destruct (checkmark self (Result.status res)) as [mark|e]; [|discriminate].
  cbn [bind].
  destruct (filter_logs wrap self (Result.statuses res)) as [logs|e];
    [|discriminate].
  intros H; injection H as <-; eauto.
Qed.

Lemma catalog_rows_shape (l : Z) (results : list (pystr * Result.t))
    (tbl tbl' : table) :
  l <= 10 ->
  catalog_rows wrap (logger_at l) tbl results = Ok tbl' ->
  exists rows,
    tbl' = tbl ++ rows /\
    Forall2 (fun fr row =>
               file_row wrap (logger_at l) (fst fr) (snd fr) = Ok row)
      results rows.
Proof.
  intros Hl; revert tbl; induction results as [|[file res] rest IH];
    intros tbl H.
  - injection H as <-; exists []; rewrite app_nil_r; split; constructor.
  - cbn [catalog_rows] in H.
    destruct (file_row wrap (logger_at l) file res) as [hay|e] eqn:E;
      [|discriminate H].
    cbn [bind] in H.
    assert (Ha : filter_append (logger_at l) tbl hay minimal =
                 Ok (tbl ++ [hay])).
    { unfold filter_append; cbn.
      assert (G : (10 >=? l) = true) by (rewrite Z.geb_leb; apply Z.leb_le; lia).
      rewrite G; reflexivity. }
    rewrite Ha in H; cbn [bind] in H.
    apply IH in H; destruct H as (rows & -> & Hr).
    exists (hay :: rows); split.
    + rewrite <- app_assoc; reflexivity.
    + constructor; [exact E | exact Hr].
Qed.

Lemma catalog_rows_returns_iff (l : Z) (results : list (pystr * Result.t))
    (tbl : table) :
  l <= 10 ->
  (exists tbl', catalog_rows wrap (logger_at l) tbl results = Ok tbl') <->
  Forall (fun fr =>
            Forall (fun log => status log = false -> details log <> None)
              (Result.statuses (snd fr)))
    results.
Proof.
  intros Hl; revert tbl; induction results as [|[file res] rest IH];
    intros tbl.
  - split; [constructor | intros _; eexists; reflexivity].
  - cbn [catalog_rows].
    pose proof (file_row_returns_iff l file res) as Hf.
    destruct (file_row wrap (logger_at l) file res) as [hay|e] eqn:E;
      cbn [bind].
    + assert (Ha : filter_append (logger_at l) tbl hay minimal =
                   Ok (tbl ++ [hay])).
      { unfold filter_append; cbn.
        assert (G : (10 >=? l) = true)
          by (rewrite Z.geb_leb; apply Z.leb_le; lia).
        rewrite G; reflexivity. }
      rewrite Ha; cbn [bind]; rewrite IH; split.
      * intros H; constructor; [apply Hf; eauto | exact H].
      * intros H; inversion H; assumption.
    + split; [intros [x H]; discriminate H|].
      intros H; inversion H as [|? ? Hh _]; subst.
      apply Hf in Hh; destruct Hh as [row Hrow]; discriminate Hrow.
Qed.

End Tables.

(** X13.  When the table of the catalog files is built, it is the heading
    followed by one row for every result, in the order of the results and
    at every verbosity: the row of a file holds its name, the check mark of
    its overall status and its selected entries joined by newlines. *)
Theorem catalog_table_rows
    (wrap : pystr -> Z -> list pystr) (nm : pystr) (self : CustomLogger)
    (results : list (pystr * Result.t)) (tbl : table) :
  __init__ nm = Ok self -> catalog_table wrap self results = Ok tbl ->
  exists rows,
    tbl = [lit "File"; lit "Status"; lit "Tests"] :: rows /\
    length rows = length results /\
    Forall2 (fun fr row =>
               exists mark logs,
                 checkmark self (Result.status (snd fr)) = Ok mark /\
                 filter_logs wrap self (Result.statuses (snd fr)) = Ok logs /\
                 row = [fst fr; mark; str_join [10%N] logs])
      results rows.
Proof.
  intros Hi; rewrite (init_shape nm self Hi).
  assert (Hl : level self <= 10).
  { apply init_cases in Hi.
    destruct Hi as [[_ ->]|[[_ ->]|[_ ->]]]; simpl; lia. }
  intros H; apply (catalog_rows_shape wrap _ _ _ _ Hl) in H.
  destruct H as (rows & -> & Hr).
  exists rows; split; [reflexivity|]. split.
  - symmetry; eapply Forall2_length; exact Hr.
  - eapply Forall2_impl; [|exact Hr].
    intros fr row; apply file_row_shape.
Qed.

Lemma catalog_table_rows_witness :
  __init__ minimal = Ok (logger_at 10) /\
  (exists tbl,
     catalog_table wrap_word (logger_at 10) sample_results = Ok tbl /\
     length tbl = 3%nat).
Proof.
  split; [reflexivity|].
  eexists; split; [reflexivity|].
  destruct (catalog_table_rows wrap_word minimal (logger_at 10)
              sample_results _ eq_refl eq_refl) as (rows & E & L & _).
  rewrite E; simpl; rewrite L; reflexivity.
Defined.

(** X14.  The table of the catalog files is built exactly when every
    failing entry of every result has a details text; one failing entry
    without details anywhere makes the whole report raise. *)
Theorem catalog_table_returns_iff
    (wrap : pystr -> Z -> list pystr) (nm : pystr) (self : CustomLogger)
    (results : list (pystr * Result.t)) :
  __init__ nm = Ok self ->
  ((exists tbl, catalog_table wrap self results = Ok tbl) <->
   Forall (fun fr =>
             Forall (fun log => status log = false -> details log <> None)
               (Result.statuses (snd fr)))
     results).
Proof.
  intros Hi; rewrite (init_shape nm self Hi).
  apply catalog_rows_returns_iff.
  apply init_cases in Hi.
  destruct Hi as [[_ ->]|[[_ ->]|[_ ->]]]; simpl; lia.
Qed.

Lemma catalog_table_returns_iff_witness :
  __init__ verbose = Ok (logger_at 0) /\
  ((exists tbl,
      catalog_table wrap_word (logger_at 0) sample_results = Ok tbl) <->
   Forall (fun fr =>
             Forall (fun log => status log = false -> details log <> None)
               (Result.statuses (snd fr)))
     sample_results).
Proof.
  split; [reflexivity|].
  apply (catalog_table_returns_iff wrap_word verbose (logger_at 0)
           sample_results); reflexivity.
Defined.

Lemma map_constant (A B : Type) (f : A -> B) (v : B) (l : list A) :
  Forall (fun x => f x = v) l -> map f l = repeat v (length l).
Proof.
  induction 1 as [|x l Hx _ IH]; [reflexivity|].
  simpl; rewrite Hx, IH; reflexivity.
Qed.

Lemma collection_rows_shape (identifier : pystr) (collection : Collection.t) :
  Forall (fun row => length row = 4%nat /\ hd [] row = identifier)
    (collection_rows identifier collection) /\
  length (collection_rows identifier collection) =
  collection_row_count collection.
Proof.
  unfold collection_rows, collection_row_count; split.
  - apply Forall_app; split;
      [|apply Forall_app; split; [|apply Forall_app; split]].
    + constructor; [split; reflexivity | constructor].
    + destruct (Collection.description collection) as [[|c d]|];
        [constructor | | constructor].
      constructor; [split; reflexivity | constructor].
    + apply Forall_forall; intros row H; apply in_map_iff in H.
      destruct H as (dc & <- & _); split; reflexivity.
    + apply Forall_forall; intros row H; apply in_map_iff in H.
      destruct H as (ex & <- & _); split; reflexivity.
  - rewrite !length_app, !length_map.
    destruct (Collection.description collection) as [[|c d]|]; simpl; lia.
Qed.

Lemma in_metadata_table (objects : list (pystr * Collection.t))
    (identifier : pystr) (collection : Collection.t) (row : list pystr) :
  In (identifier, collection) objects ->
  In row (collection_rows identifier collection) ->
  In row (metadata_table objects).
Proof.
  intros Ho Hr; unfold metadata_table.
  apply in_or_app; right; apply in_concat.
  exists (collection_rows identifier collection); split; [|exact Hr].
  apply in_map_iff; exists (identifier, collection); split;
    [reflexivity | exact Ho].
Qed.

(** X15.  The metadata table follows the catalog objects.  Every row, the
    heading included, has four cells.  Its first column is the heading
    followed, object after object in the order of the catalog, by the
    identifier of the object once for its title, once for its description
    when that is not empty, and once for each of its descriptive and
    extension metadata.  The row of the title, of the description and of
    every metadata entry of every object is in the table. *)
Theorem metadata_table_shape (objects : list (pystr * Collection.t)) :
  Forall (fun row => length row = 4%nat) (metadata_table objects) /\
  map (hd []) (metadata_table objects) =
    lit "Identifier" ::
    concat (map (fun io => repeat (fst io) (collection_row_count (snd io)))
                objects) /\
  (forall identifier collection,
     In (identifier, collection) objects ->
     In [identifier; lit "title"; []; Collection.title collection]
       (metadata_table objects) /\
     (forall d,
        Collection.description collection = Some d -> d <> [] ->
        In [identifier; lit "description"; []; d] (metadata_table objects)) /\
     (forall dc,
        In dc (Collection.dublin_core collection) ->
        In [identifier; lit "dc:" ++ Metadata.term dc;
            str_or (Metadata.language dc) []; Metadata.value dc]
          (metadata_table objects)) /\
     (forall ex,
        In ex (Collection.extensions collection) ->
        In [identifier; Metadata.term ex;
            str_or (Metadata.language ex) []; Metadata.value ex]
          (metadata_table objects))).
Proof.
  split; [|split].
  - unfold metadata_table; apply Forall_app; split.
    { constructor; [reflexivity | constructor]. }
    apply Forall_concat, Forall_map, Forall_forall; intros [i c] _.
    eapply Forall_impl; [|apply collection_rows_shape].
    intros row [H _]; exact H.
  - unfold metadata_table.
    change (map (hd []) ([[lit "Identifier"; lit "Key"; lit "Language";
                           lit "Metadata"]] ++ ?l))
      with (lit "Identifier" :: map (hd []) l).
    f_equal; rewrite concat_map, map_map.
    f_equal; apply map_ext; intros [i c]; cbn [fst snd].
    destruct (collection_rows_shape i c) as [Hf <-].
    apply map_constant.
    eapply Forall_impl; [|exact Hf]. intros row [_ H]; exact H.
  - intros identifier collection Ho.
    assert (Hin : forall row,
              In row (collection_rows identifier collection) ->
              In row (metadata_table objects))
      by (intros row; apply in_metadata_table; exact Ho).
    unfold collection_rows in Hin.
    split; [|split; [|split]].
    + apply Hin; left; reflexivity.
    + intros d Hd Hne; apply Hin.
      apply in_or_app; right; apply in_or_app; left.
      rewrite Hd; destruct d; [contradiction | left; reflexivity].
    + intros dc Hdc; apply Hin.
      apply in_or_app; right; apply in_or_app; right.
      apply in_or_app; left.
      apply in_map_iff; exists dc; split; [reflexivity | exact Hdc].
    + intros ex Hex; apply Hin.
      apply in_or_app; right; apply in_or_app; right.
      apply in_or_app; right.
      apply in_map_iff; exists ex; split; [reflexivity | exact Hex].
Qed.

(** ** Failing entries with details *)

(** X16.  In an input whose failing entries all have a details text, a
    failing entry is shown at every level: [filter_logs] returns, and the
    text of the entry (its name, a colon and a space, and its wrapped
    details coloured as a failure) stands in the output at the place of
    the entry, between the lines of the entries before and after it. *)
Theorem filter_logs_failure_shown
    (wrap : pystr -> Z -> list pystr) (nm : pystr) (self : CustomLogger)
    (log : Log) (d : pystr) (pre post : list Log) :
  __init__ nm = Ok self -> status log = false -> details log = Some d ->
  Forall renderable pre -> Forall renderable post ->
  exists a b r,
    filter_logs wrap self pre = Ok a /\
    filter_logs wrap self post = Ok b /\
    green_red self (str_join indent_marker (wrap d 88)) false = Ok r /\
    filter_logs wrap self (pre ++ log :: post) =
    Ok (a ++ (name log ++ lit ": " ++ r) :: b).
Proof.
  intros Hi Hs Hd Hpre Hpost; rewrite (init_shape nm self Hi).
  apply (filter_logs_returns_iff_at wrap (level self)) in Hpre, Hpost.
  destruct Hpre as [a Ha]; destruct Hpost as [b Hb].
  destruct (entry_text_failure wrap (level self) log d Hs Hd)
    as (r & Hr & Ht).
  exists a, b, r; repeat split; try assumption.
  rewrite filter_logs_app, Ha.
  cbn [bind filter_logs]; rewrite Hs, Ht, Hb; reflexivity.
Qed.

Lemma filter_logs_failure_shown_witness :
  __init__ minimal = Ok (logger_at 10) /\
  status entry_fail = false /\
  details entry_fail = Some (lit "missing element X") /\
  Forall renderable [entry_pass] /\
  Forall renderable [] /\
  filter_logs wrap_word (logger_at 10) ([entry_pass] ++ entry_fail :: []) =
  Ok [lit "schema: " ++
      click_style (lit "missing element X") (Some red) None].
Proof.
  assert (Hf : Forall renderable [entry_pass])
    by (constructor; [intros H; discriminate H | constructor]).
  split; [reflexivity|]. split; [reflexivity|]. split; [reflexivity|].
  split; [exact Hf|]. split; [constructor|].
  destruct (filter_logs_failure_shown wrap_word minimal (logger_at 10)
              entry_fail (lit "missing element X") [entry_pass] []
              eq_refl eq_refl eq_refl Hf (Forall_nil _))
    as (a & b & r & Ha & Hb & Hr & H).
  rewrite H.
  injection Ha as <-; injection Hb as <-; injection Hr as <-; reflexivity.
Defined.
